(** * Covey.Town private spaces: the space controller and its request handlers

    A shallow embedding of [CoveySpaceController] (the per-space access
    control state machine) and of the space request handlers, followed by
    the properties of the specification that concern them.

    JavaScript values are modelled as follows.
    - A [Player] object is a record carrying its heap identity [ref]; the
      array method [includes] compares objects by identity, [find] and
      [filter] run the callbacks of the source on the [id] strings.
    - An array is a [list]; [push] appends at the end.
    - [string | null] is [option string].
    - A method of the controller is a computation in a small state monad
      over the controller's own fields and the town controller it points to.
    - The state of the [TransferList] component is a record of its three
      [useState] cells; an event handler maps the state of the render it
      was created in to the state of the next render. *)

From Stdlib Require Import String List Bool Arith ZArith Lia.
Import ListNotations.
Local Open Scope string_scope.
Local Open Scope list_scope.

(** ** Players and arrays of players *)

Record Player : Type := {
  ref : nat;            (* identity of the object on the heap *)
  id : string;
  userName : string
}.

(** [a === b] on two player objects. *)
Definition same_object (p q : Player) : bool := Nat.eqb (ref p) (ref q).

(** [arr.includes(p)] *)
Definition includes (arr : list Player) (p : Player) : bool :=
  existsb (same_object p) arr.

(** [arr.push(x)] *)
Definition push {A : Type} (arr : list A) (x : A) : list A := arr ++ [x].

(** [arr.find(p => p.id === playerID)] *)
Definition findByID (arr : list Player) (playerID : string) : option Player :=
  find (fun p => String.eqb (id p) playerID) arr.

(** [arr.filter(p => p.id !== playerID)] *)
Definition withoutID (arr : list Player) (playerID : string) : list Player :=
  filter (fun p => negb (String.eqb (id p) playerID)) arr.

(** ** The town controller, as far as the space controller uses it *)

Module CoveyTownController.

(** What the town controller has been told, oldest first. *)
Inductive Event : Type :=
| SpaceClaimed (coveySpaceID : string)
| PlayerJoinedSpace (playerID coveySpaceID : string).

Record t : Type := {
  players : list Player;   (* the players currently in the town *)
  events : list Event      (* the notifications received so far *)
}.

(** Modelled from the spec: [claimSpace] of the town controller is not part
    of the sources; the specification says that a successful claim
    "notifies the parent environment that the space is now claimed", a
    fire-and-forget side effect.  The notification is recorded in the log. *)
Definition claimSpace (coveySpaceID : string) (c : t) : t :=
  {| players := players c;
     events := push (events c) (SpaceClaimed coveySpaceID) |}.

End CoveyTownController.

(** ** The space controller *)

Record CoveySpaceController : Type := {
  coveyTownController : string;   (* which town controller it points to *)
  players : list Player;
  coveySpaceID : string;
  spaceHostID : option string;
  presenterID : option string;
  whitelist : list Player;
  isPrivate : bool
}.

(** What a method sees: its own object and the town controller behind
    [_coveyTownController]. *)
Record Ctx : Type := {
  this : CoveySpaceController;
  town : CoveyTownController.t
}.

(** [new CoveySpaceController(coveySpaceID, townController)] *)
Definition newSpace (coveySpaceID townID : string) : CoveySpaceController :=
  {| coveyTownController := townID;
     players := [];
     coveySpaceID := coveySpaceID;
     spaceHostID := None;
     presenterID := None;
     whitelist := [];
     isPrivate := false |}.

Definition constructor (coveySpaceID townID : string)
  (townController : CoveyTownController.t) : Ctx :=
  {| this := newSpace coveySpaceID townID; town := townController |}.

(** *** The state monad of the methods *)

Definition M (A : Type) : Type := Ctx -> A * Ctx.

Definition ret {A : Type} (a : A) : M A := fun c => (a, c).

Definition bind {A B : Type} (m : M A) (k : A -> M B) : M B :=
  fun c => let (a, c') := m c in k a c'.

Declare Scope method_scope.
Delimit Scope method_scope with method.
Notation "x <- m ;; k" := (bind m (fun x => k))
  (at level 61, m at next level, right associativity) : method_scope.
Notation "m ;; k" := (bind m (fun _ => k))
  (at level 61, right associativity) : method_scope.
Local Open Scope method_scope.

(** Reading a field of [this]. *)
Definition read {A : Type} (field : CoveySpaceController -> A) : M A :=
  fun c => (field (this c), c).

(** Assignments to the fields of [this]. *)
Definition modify (f : CoveySpaceController -> CoveySpaceController) : M unit :=
  fun c => (tt, {| this := f (this c); town := town c |}).

Definition set_players (v : list Player) : M unit :=
  modify (fun s =>
    {| coveyTownController := coveyTownController s; players := v;
       coveySpaceID := coveySpaceID s; spaceHostID := spaceHostID s;
       presenterID := presenterID s; whitelist := whitelist s;
       isPrivate := isPrivate s |}).

Definition set_spaceHostID (v : option string) : M unit :=
  modify (fun s =>
    {| coveyTownController := coveyTownController s; players := players s;
       coveySpaceID := coveySpaceID s; spaceHostID := v;
       presenterID := presenterID s; whitelist := whitelist s;
       isPrivate := isPrivate s |}).

Definition set_presenterID (v : option string) : M unit :=
  modify (fun s =>
    {| coveyTownController := coveyTownController s; players := players s;
       coveySpaceID := coveySpaceID s; spaceHostID := spaceHostID s;
       presenterID := v; whitelist := whitelist s;
       isPrivate := isPrivate s |}).

Definition set_whitelist (v : list Player) : M unit :=
  modify (fun s =>
    {| coveyTownController := coveyTownController s; players := players s;
       coveySpaceID := coveySpaceID s; spaceHostID := spaceHostID s;
       presenterID := presenterID s; whitelist := v;
       isPrivate := isPrivate s |}).

Definition set_isPrivate (v : bool) : M unit :=
  modify (fun s =>
    {| coveyTownController := coveyTownController s; players := players s;
       coveySpaceID := coveySpaceID s; spaceHostID := spaceHostID s;
       presenterID := presenterID s; whitelist := whitelist s;
       isPrivate := v |}).

(** [this._coveyTownController.players] *)
Definition townPlayers : M (list Player) :=
  fun c => (CoveyTownController.players (town c), c).

(** [this._coveyTownController.claimSpace(id)] *)
Definition townClaimSpace (coveySpaceID : string) : M unit :=
  fun c => (tt, {| this := this c;
                   town := CoveyTownController.claimSpace coveySpaceID (town c) |}).

(** *** The methods, in the order of the source *)

Definition playerFromID (playerID : string) : M (option Player) :=
  ps <- townPlayers ;;
  ret (findByID ps playerID).

Definition isPlayerInSpace (playerID : string) : M bool :=
  ps <- read players ;;
  ret (match findByID ps playerID with Some _ => true | None => false end).

Definition publicizeSpace : M unit :=
  set_isPrivate false ;;
  set_presenterID None ;;
  set_spaceHostID None ;;
  set_whitelist [].

Definition pushPlayer (p : Player) : M unit :=
  ps <- read players ;;
  set_players (push ps p).

Definition addPlayer (newPlayerID : string) : M bool :=
  newPlayer <- playerFromID newPlayerID ;;
  match newPlayer with
  | Some newPlayer =>
      ps <- read players ;;
      if includes ps newPlayer then ret true
      else
        priv <- read isPrivate ;;
        if Bool.eqb priv false then
          pushPlayer newPlayer ;; ret true
        else
          host <- read spaceHostID ;;
          match host with
          | Some hostID =>
              hostPlayer <- playerFromID hostID ;;
              match hostPlayer with
              | None =>
                  publicizeSpace ;; pushPlayer newPlayer ;; ret true
              | Some _ =>
                  wl <- read whitelist ;;
                  if includes wl newPlayer || String.eqb hostID newPlayerID
                  then pushPlayer newPlayer ;; ret true
                  else ret false
              end
          | None => ret false
          end
  | None => ret false
  end.

Definition removePlayer (playerID : string) : M unit :=
  player <- playerFromID playerID ;;
  match player with
  | Some player =>
      ps <- read players ;;
      set_players (withoutID ps (id player))
  | None => ret tt
  end.

Definition addPlayerToWhiteList (newPlayerID : string) : M (list Player) :=
  newPlayer <- playerFromID newPlayerID ;;
  match newPlayer with
  | Some newPlayer =>
      wl <- read whitelist ;;
      if includes wl newPlayer then read whitelist
      else set_whitelist (push wl newPlayer) ;; read whitelist
  | None => read whitelist
  end.

Definition removePlayerFromWhiteList (playerID : string) : M unit :=
  player <- playerFromID playerID ;;
  match player with
  | Some player =>
      wl <- read whitelist ;;
      set_whitelist (withoutID wl (id player))
  | None => ret tt
  end.

Definition disconnectAllPlayersExceptP (p : string) : M unit :=
  player <- playerFromID p ;;
  match player with
  | Some player => set_players [player]
  | None => ret tt
  end.

Definition updateSpaceHost (newHostID : option string) : M bool :=
  match newHostID with
  | Some newHostID =>
      host <- read spaceHostID ;;
      match host with
      | None =>
          set_spaceHostID (Some newHostID) ;;
          disconnectAllPlayersExceptP newHostID ;;
          set_isPrivate true ;;
          sid <- read coveySpaceID ;;
          townClaimSpace sid ;;
          ret true
      | Some _ => ret false
      end
  | None => publicizeSpace ;; ret true
  end.

Definition updatePresenter (newPresenterID : option string) : M unit :=
  set_presenterID newPresenterID.

(** The [forEach] of [updateWhitelist]: the identifiers are visited from
    left to right, [arr] is the local array being filled. *)
Fixpoint updateWhitelist_forEach (newWhitelist : list string)
  (arr : list Player) : M (list Player) :=
  match newWhitelist with
  | [] => ret arr
  | playerID :: rest =>
      player <- playerFromID playerID ;;
      match player with
      | Some player => updateWhitelist_forEach rest (push arr player)
      | None => updateWhitelist_forEach rest arr
      end
  end.

Definition updateWhitelist (newWhitelist : list string) : M unit :=
  idWhitelistToPlayerWhitelist <- updateWhitelist_forEach newWhitelist [] ;;
  set_whitelist idWhitelistToPlayerWhitelist.

(** *** Sequences of calls

    Between two calls the town may change: players come and go.  A trace
    interleaves the calls on the space with such changes. *)

Inductive Op : Type :=
| OpAddPlayer (newPlayerID : string)
| OpRemovePlayer (playerID : string)
| OpUpdateSpaceHost (newHostID : option string)
| OpUpdatePresenter (newPresenterID : option string)
| OpUpdateWhitelist (newWhitelist : list string)
| OpAddPlayerToWhiteList (newPlayerID : string)
| OpRemovePlayerFromWhiteList (playerID : string)
| OpPublicizeSpace
| TownChanges (townPlayers : list Player).

Definition step (op : Op) (c : Ctx) : Ctx :=
  match op with
  | OpAddPlayer i => snd (addPlayer i c)
  | OpRemovePlayer i => snd (removePlayer i c)
  | OpUpdateSpaceHost h => snd (updateSpaceHost h c)
  | OpUpdatePresenter p => snd (updatePresenter p c)
  | OpUpdateWhitelist l => snd (updateWhitelist l c)
  | OpAddPlayerToWhiteList i => snd (addPlayerToWhiteList i c)
  | OpRemovePlayerFromWhiteList i => snd (removePlayerFromWhiteList i c)
  | OpPublicizeSpace => snd (publicizeSpace c)
  | TownChanges ps =>
      {| this := this c;
         town := {| CoveyTownController.players := ps;
                    CoveyTownController.events :=
                      CoveyTownController.events (town c) |} |}
  end.

Definition run (ops : list Op) (c : Ctx) : Ctx := fold_left (fun c op => step op c) ops c.

(** The stored flag agrees with the stored host. *)
Definition flag_matches_host (s : CoveySpaceController) : Prop :=
  isPrivate s = true <-> spaceHostID s <> None.

(** An identifier resolves when the town has a player of that [id]. *)
Definition resolves (c : Ctx) (playerID : string) : option Player :=
  findByID (CoveyTownController.players (town c)) playerID.

(** ** The stores and the request handlers *)

(** [ResponseEnvelope<T>]: the optional fields are [None] when the object
    literal of the source leaves them out. *)
Record ResponseEnvelope (T : Type) : Type := {
  isOK : bool;
  message : option string;
  response : option T
}.
Arguments isOK {T} _.
Arguments message {T} _.
Arguments response {T} _.

Module SpaceCreateRequest.
Record t : Type := { coveyTownID : string; coveySpaceID : string }.
End SpaceCreateRequest.

Module SpaceClaimRequest.
Record t : Type := {
  coveyTownID : string; coveySpaceID : string; newHostPlayerID : string }.
End SpaceClaimRequest.

Module SpaceJoinRequest.
Record t : Type := {
  coveyTownID : string; playerID : string; coveySpaceID : string }.
End SpaceJoinRequest.

Module SpaceListRequest.
Record t : Type := { coveyTownID : string }.
End SpaceListRequest.

Module SpaceDisbandRequest.
Record t : Type := { coveyTownID : string; coveySpaceID : string }.
End SpaceDisbandRequest.

Module SpaceUpdateRequest.
Record t : Type := {
  coveyTownID : string; coveySpaceID : string;
  newHost : Player; newPresenter : Player; newWhitelist : list Player }.
End SpaceUpdateRequest.

Record SpaceJoinResponse : Type := {
  currentPlayers : list Player;
  currentHostID : option string;
  currentPresenterID : option string
}.

(** The two response interfaces of the source without members. *)
Definition SpaceCreateResponse : Type := unit.
Definition SpaceClaimResponse : Type := unit.

(** [Record<string, null>] *)
Definition EmptyRecord : Type := list (string * unit).

(** The two singletons: the towns store and the spaces store, each a table
    from identifier to controller. *)
Record World : Type := {
  townsStore : list (string * CoveyTownController.t);
  spacesStore : list (string * CoveySpaceController)
}.

Fixpoint lookup {V : Type} (key : string) (table : list (string * V)) : option V :=
  match table with
  | [] => None
  | (k, v) :: rest => if String.eqb k key then Some v else lookup key rest
  end.

(** Writing through a reference obtained by [lookup]: the first entry of
    that key takes the new value. *)
Fixpoint store {V : Type} (key : string) (v : V) (table : list (string * V))
  : list (string * V) :=
  match table with
  | [] => []
  | (k, v0) :: rest =>
      if String.eqb k key then (k, v) :: rest else (k, v0) :: store key v rest
  end.

(** Modelled from the spec: [CoveyTownsStore.getControllerForTown] is not
    part of the sources; the handler tests its result for absence. *)
Definition getControllerForTown (w : World) (coveyTownID : string)
  : option CoveyTownController.t :=
  lookup coveyTownID (townsStore w).

(** Modelled from the spec: [CoveySpacesStore.getControllerForSpace] is not
    part of the sources; the specification gives
    "lookup(spaceID) -> Space | absent". *)
Definition getControllerForSpace (w : World) (coveySpaceID : string)
  : option CoveySpaceController :=
  lookup coveySpaceID (spacesStore w).

(** The town controller a space controller points to.  The towns store
    serves as the heap of town controllers and the town's name as the
    reference to it, so the model covers the worlds in which the town of
    every stored space is itself stored; what is proved about the town a
    method reads assumes that it is.  Outside these worlds the reference
    has no target in the model and reads as a town without players. *)
Definition townOf (w : World) (s : CoveySpaceController) : CoveyTownController.t :=
  match getControllerForTown w (coveyTownController s) with
  | Some t => t
  | None => {| CoveyTownController.players := [];
               CoveyTownController.events := [] |}
  end.

(** Calling a method on the controller stored under [coveySpaceID]: the
    method runs on the stored object and on its town, both are updated in
    place. *)
Definition invoke {A : Type} (coveySpaceID : string) (s : CoveySpaceController)
  (m : M A) (w : World) : A * World :=
  let (a, c) := m {| this := s; town := townOf w s |} in
  (a, {| townsStore := store (coveyTownController s) (town c) (townsStore w);
         spacesStore := store coveySpaceID (this c) (spacesStore w) |}).

Definition failure {T : Type} (msg : string) : ResponseEnvelope T :=
  {| isOK := false; message := Some msg; response := None |}.

Section Handlers.

(** The methods of the stores and of the town controller that the handlers
    call and the sources do not contain. *)
Variable CoveySpaceList : Type.
Variable createSpace : string -> World -> World.
Variable getSpaces : World -> CoveySpaceList.
Variable disbandSpace : string -> World -> World.
Variable updateSpace : string -> Player -> Player -> list Player -> World -> World.
(** Modelled from the spec: [CoveyTownController.joinSpace], the
    "environment.join (membership in the broader environment)" of the
    handler table, an effect on the town controller it is called on. *)
Variable joinSpace : string -> string -> CoveyTownController.t -> CoveyTownController.t.

Definition spaceCreateHandler (requestData : SpaceCreateRequest.t) (w : World)
  : ResponseEnvelope SpaceCreateResponse * World :=
  if Nat.eqb (String.length (SpaceCreateRequest.coveySpaceID requestData)) 0 then
    (failure "Space ID must be specified", w)
  else
    let w' := createSpace (SpaceCreateRequest.coveySpaceID requestData) w in
    ({| isOK := true;
        message := Some ("Private Space "
                         ++ SpaceCreateRequest.coveySpaceID requestData
                         ++ " was created")%string;
        response := None |}, w').

Definition spaceJoinHandler (requestData : SpaceJoinRequest.t) (w : World)
  : ResponseEnvelope SpaceJoinResponse * World :=
  match getControllerForTown w (SpaceJoinRequest.coveyTownID requestData) with
  | None => (failure "Error: No such town", w)
  | Some coveyTownController =>
      let w' :=
        {| townsStore :=
             store (SpaceJoinRequest.coveyTownID requestData)
               (joinSpace (SpaceJoinRequest.playerID requestData)
                  (SpaceJoinRequest.coveySpaceID requestData) coveyTownController)
               (townsStore w);
           spacesStore := spacesStore w |} in
      match getControllerForSpace w' (SpaceJoinRequest.coveySpaceID requestData) with
      | None => (failure "Error: No such space", w')
      | Some coveySpaceController =>
          ({| isOK := true;
              message := None;
              response := Some
                {| currentPlayers := players coveySpaceController;
                   currentHostID := spaceHostID coveySpaceController;
                   currentPresenterID := presenterID coveySpaceController |} |},
           w')
      end
  end.

Definition spaceListHandler (requestData : SpaceListRequest.t) (w : World)
  : ResponseEnvelope CoveySpaceList * World :=
  ({| isOK := true; message := None; response := Some (getSpaces w) |}, w).

Definition spaceClaimHandler (requestData : SpaceClaimRequest.t) (w : World)
  : ResponseEnvelope SpaceClaimResponse * World :=
  match getControllerForSpace w (SpaceClaimRequest.coveySpaceID requestData) with
  | None => (failure "Error: No such space", w)
  | Some coveySpaceController =>
      let (_, w') :=
        invoke (SpaceClaimRequest.coveySpaceID requestData) coveySpaceController
          (updateSpaceHost (Some (SpaceClaimRequest.newHostPlayerID requestData))) w in
      ({| isOK := true;
          message := Some ("The host was update to be player with ID "
                           ++ SpaceClaimRequest.newHostPlayerID requestData)%string;
          response := None |}, w')
  end.

Definition spaceDisbandHandler (requestData : SpaceDisbandRequest.t) (w : World)
  : ResponseEnvelope EmptyRecord * World :=
  let w' := disbandSpace (SpaceDisbandRequest.coveySpaceID requestData) w in
  ({| isOK := true;
      message := Some ("The space " ++ SpaceDisbandRequest.coveySpaceID requestData
                       ++ " was disbanded.")%string;
      response := Some [] |}, w').

Definition spaceUpdateHandler (requestData : SpaceUpdateRequest.t) (w : World)
  : ResponseEnvelope EmptyRecord * World :=
  let w' := updateSpace (SpaceUpdateRequest.coveySpaceID requestData)
              (SpaceUpdateRequest.newHost requestData)
              (SpaceUpdateRequest.newPresenter requestData)
              (SpaceUpdateRequest.newWhitelist requestData) w in
  ({| isOK := true;
      message := Some ("The space " ++ SpaceUpdateRequest.coveySpaceID requestData
                       ++ " was updated.")%string;
      response := Some [] |}, w').

End Handlers.

(** [spaceJoinHandler] once more, for a [joinSpace] that may reach both
    singletons.  The method of the town controller is not part of the
    sources; the handler table of the specification has the join go
    through "environment.join ... then space.admit", so the call may
    change the space controller as well.  Here [joinSpace] is any
    transformation of the world, told which town controller it is called
    on, and the handler looks the space up in the world the call left. *)
Module WholeWorld.

Definition spaceJoinHandler
  (joinSpace : string -> string -> string -> World -> World)
  (requestData : SpaceJoinRequest.t) (w : World)
  : ResponseEnvelope SpaceJoinResponse * World :=
  match getControllerForTown w (SpaceJoinRequest.coveyTownID requestData) with
  | None => (failure "Error: No such town", w)
  | Some _ =>
      let w' := joinSpace (SpaceJoinRequest.coveyTownID requestData)
                  (SpaceJoinRequest.playerID requestData)
                  (SpaceJoinRequest.coveySpaceID requestData) w in
      match getControllerForSpace w' (SpaceJoinRequest.coveySpaceID requestData) with
      | None => (failure "Error: No such space", w')
      | Some coveySpaceController =>
          ({| isOK := true;
              message := None;
              response := Some
                {| currentPlayers := players coveySpaceController;
                   currentHostID := spaceHostID coveySpaceController;
                   currentPresenterID := presenterID coveySpaceController |} |},
           w')
      end
  end.

(** A [joinSpace] that only changes the town controller it is called on. *)
Definition onTown
  (joinSpace : string -> string -> CoveyTownController.t -> CoveyTownController.t)
  (coveyTownID playerID coveySpaceID : string) (w : World) : World :=
  match getControllerForTown w coveyTownID with
  | Some t =>
      {| townsStore := store coveyTownID (joinSpace playerID coveySpaceID t)
                         (townsStore w);
         spacesStore := spacesStore w |}
  | None => w
  end.

End WholeWorld.

(** ** The whitelist editor: the [TransferList] component

    The component keeps three arrays of players: the checked ones, the
    ones not selected (left list) and the new whitelist (right list).
    Each handler reads the arrays of the current render and sets the arrays
    of the next. *)

Module TransferList.

(** [arr.indexOf(value)]: the first index holding that object, -1 when
    there is none. *)
Fixpoint indexOf (arr : list Player) (value : Player) : Z :=
  match arr with
  | [] => (-1)%Z
  | x :: rest =>
      if same_object x value then 0%Z
      else let i := indexOf rest value in
           if (i =? -1)%Z then (-1)%Z else (i + 1)%Z
  end.

(** [arr.splice(start, 1)]: the array without the element at [start]; a
    negative [start] counts from the end, one beyond the end removes
    nothing. *)
Definition splice1 (arr : list Player) (start : Z) : list Player :=
  let len := Z.of_nat (length arr) in
  let from := if (start <? 0)%Z then Z.max (len + start) 0 else Z.min start len in
  firstn (Z.to_nat from) arr ++ skipn (Z.to_nat from + 1) arr.

Definition not (a b : list Player) : list Player :=
  filter (fun value => (indexOf b value =? -1)%Z) a.

Definition intersection (a b : list Player) : list Player :=
  filter (fun value => negb (indexOf b value =? -1)%Z) a.

Record State : Type := {
  checked : list Player;
  notSelected : list Player;
  newWhitelist : list Player
}.

(** The three [useState([])]. *)
Definition initialState : State :=
  {| checked := []; notSelected := []; newWhitelist := [] |}.

(** [players] is the list of the application state, [whitelistOfPlayers]
    the property passed to the component. *)
Definition initializeWhitelist (players whitelistOfPlayers : list Player)
  (st : State) : State :=
  {| checked := checked st;
     notSelected := filter (fun p => negb (includes whitelistOfPlayers p)) players;
     newWhitelist := whitelistOfPlayers |}.

Definition leftChecked (st : State) : list Player :=
  intersection (checked st) (notSelected st).

Definition rightChecked (st : State) : list Player :=
  intersection (checked st) (newWhitelist st).

Definition handleToggle (value : Player) (st : State) : State :=
  let currentIndex := indexOf (checked st) value in
  let newChecked := checked st in
  {| checked := if (currentIndex =? -1)%Z then push newChecked value
                else splice1 newChecked currentIndex;
     notSelected := notSelected st;
     newWhitelist := newWhitelist st |}.

Definition handleAllRight (st : State) : State :=
  {| checked := checked st;
     notSelected := [];
     newWhitelist := newWhitelist st ++ notSelected st |}.

Definition handleCheckedRight (st : State) : State :=
  {| checked := not (checked st) (leftChecked st);
     notSelected := not (notSelected st) (leftChecked st);
     newWhitelist := newWhitelist st ++ leftChecked st |}.

Definition handleCheckedLeft (st : State) : State :=
  {| checked := not (checked st) (rightChecked st);
     notSelected := notSelected st ++ rightChecked st;
     newWhitelist := not (newWhitelist st) (rightChecked st) |}.

Definition handleAllLeft (st : State) : State :=
  {| checked := checked st;
     notSelected := notSelected st ++ newWhitelist st;
     newWhitelist := [] |}.

(** What [handleChange] passes to [onWhitelistChange]. *)
Definition handleChange (st : State) : list string :=
  map id (newWhitelist st).

(** What can happen to the component between two renders. *)
Inductive Event : Type :=
| Initialize (players whitelistOfPlayers : list Player)
| Toggle (value : Player)
| AllRight
| CheckedRight
| CheckedLeft
| AllLeft.

Definition step (e : Event) (st : State) : State :=
  match e with
  | Initialize players whitelistOfPlayers =>
      initializeWhitelist players whitelistOfPlayers st
  | Toggle value => handleToggle value st
  | AllRight => handleAllRight st
  | CheckedRight => handleCheckedRight st
  | CheckedLeft => handleCheckedLeft st
  | AllLeft => handleAllLeft st
  end.

Definition run (events : list Event) (st : State) : State :=
  fold_left (fun st e => step e st) events st.

End TransferList.

(** ** Auxiliary notions for the statements *)

(** No event of the list is a re-initialization. *)
Definition no_initialize (events : list TransferList.Event) : Prop :=
  forall players whitelistOfPlayers,
    ~ In (TransferList.Initialize players whitelistOfPlayers) events.

(** The array without its first element that is the object [value]. *)
Fixpoint withoutFirst (value : Player) (arr : list Player) : list Player :=
  match arr with
  | [] => []
  | x :: rest => if same_object x value then rest else x :: withoutFirst value rest
  end.

(** The players that a list of identifiers resolves to, in the order of the
    identifiers. *)
Definition resolveAll (townPlayers : list Player) (ids : list string) : list Player :=
  flat_map (fun i => match findByID townPlayers i with
                     | Some p => [p]
                     | None => []
                     end) ids.

(** The same context after the town's player list has become [ps]. *)
Definition afterTownChange (ps : list Player) (c : Ctx) : Ctx :=
  step (TownChanges ps) c.

(** What the envelope of a failure looks like. *)
Definition well_formed_failure {T : Type} (e : ResponseEnvelope T) : Prop :=
  isOK e = false -> message e <> None /\ response e = None.

(** ** Sample data *)

Definition alice : Player := {| ref := 1; id := "a"; userName := "Alice" |}.
Definition bob : Player := {| ref := 2; id := "b"; userName := "Bob" |}.
Definition carol : Player := {| ref := 3; id := "c"; userName := "Carol" |}.

Definition sampleTown : CoveyTownController.t :=
  {| CoveyTownController.players := [alice; bob; carol];
     CoveyTownController.events := [] |}.

Definition emptyTown : CoveyTownController.t :=
  {| CoveyTownController.players := []; CoveyTownController.events := [] |}.

(** A fresh space of the sample town. *)
Definition freshCtx : Ctx := constructor "s1" "t1" sampleTown.

(** The sample space after Alice has claimed it. *)
Definition aliceHosts : Ctx := run [OpUpdateSpaceHost (Some "a")] freshCtx.

(** A world with the sample town and one fresh space in it. *)
Definition sampleWorld : World :=
  {| townsStore := [("t1", sampleTown)];
     spacesStore := [("s1", newSpace "s1" "t1")] |}.

(** Alice, then Bob, ask to claim the space "s1". *)
Definition claimByAlice : SpaceClaimRequest.t :=
  {| SpaceClaimRequest.coveyTownID := "t1";
     SpaceClaimRequest.coveySpaceID := "s1";
     SpaceClaimRequest.newHostPlayerID := "a" |}.

Definition claimByBob : SpaceClaimRequest.t :=
  {| SpaceClaimRequest.coveyTownID := "t1";
     SpaceClaimRequest.coveySpaceID := "s1";
     SpaceClaimRequest.newHostPlayerID := "b" |}.

(** The sample world after Alice's claim has been handled. *)
Definition aliceHostsWorld : World := snd (spaceClaimHandler claimByAlice sampleWorld).

(** Bob asks to join a space that does not exist, in a town that does. *)
Definition joinNowhere : SpaceJoinRequest.t :=
  {| SpaceJoinRequest.coveyTownID := "t1";
     SpaceJoinRequest.playerID := "b";
     SpaceJoinRequest.coveySpaceID := "nowhere" |}.

(** Alice hosts the space, Carol is presenter and on the whitelist; then
    Alice leaves the town. *)
Definition hostGone : Ctx :=
  run [OpUpdateSpaceHost (Some "a"); OpUpdatePresenter (Some "c");
       OpAddPlayerToWhiteList "c"; TownChanges [bob; carol]] freshCtx.

(** Alice hosts the space, Bob, Carol and Bob's second entry are on the
    whitelist. *)
Definition bobListedTwice : Ctx :=
  run [OpUpdateSpaceHost (Some "a"); OpUpdateWhitelist ["b"; "c"; "b"]] freshCtx.

(** Bob is a member of the fresh space. *)
Definition bobInside : Ctx := run [OpAddPlayer "b"] freshCtx.

(** Bob asks to join the space "s1". *)
Definition joinS1 : SpaceJoinRequest.t :=
  {| SpaceJoinRequest.coveyTownID := "t1";
     SpaceJoinRequest.playerID := "b";
     SpaceJoinRequest.coveySpaceID := "s1" |}.

(** One possible [joinSpace] on the whole world: it admits the player to
    the space, when there is one. *)
Definition joinSpace_admitting (coveyTownID playerID coveySpaceID : string)
  (w : World) : World :=
  match getControllerForSpace w coveySpaceID with
  | Some s => snd (invoke coveySpaceID s (addPlayer playerID) w)
  | None => w
  end.

(** One possible [joinSpace]: it only records that it has been called. *)
Definition joinSpace_recording (playerID coveySpaceID : string)
  (t : CoveyTownController.t) : CoveyTownController.t :=
  {| CoveyTownController.players := CoveyTownController.players t;
     CoveyTownController.events :=
       push (CoveyTownController.events t)
            (CoveyTownController.PlayerJoinedSpace playerID coveySpaceID) |}.

(** * Properties *)

(** The array operations stay folded during simplification. *)
Arguments findByID : simpl never.
Arguments includes : simpl never.
Arguments push : simpl never.
Arguments withoutID : simpl never.
Arguments resolveAll : simpl never.

(** ** Unfolding the methods *)

Ltac unfold_monad :=
  unfold bind, ret, read, modify, townPlayers, townClaimSpace in *.

Ltac unfold_setters :=
  unfold pushPlayer, publicizeSpace, set_players, set_spaceHostID,
    set_presenterID, set_whitelist, set_isPrivate in *.

Ltac unfold_methods :=
  unfold addPlayer, removePlayer, addPlayerToWhiteList,
    removePlayerFromWhiteList, updateSpaceHost, updatePresenter,
    updateWhitelist, disconnectAllPlayersExceptP, playerFromID in *;
  unfold_setters; unfold_monad.

Ltac flag_done :=
  cbn in *; first [ assumption | intuition congruence ].

Lemma resolveAll_cons (townPlayers : list Player) (i : string) (ids : list string) :
  resolveAll townPlayers (i :: ids)
  = match findByID townPlayers i with
    | Some p => p :: resolveAll townPlayers ids
    | None => resolveAll townPlayers ids
    end.
Proof.
  unfold resolveAll; cbn [flat_map]. now destruct (findByID townPlayers i).
Qed.

Lemma updateWhitelist_forEach_eq (ids : list string) :
  forall (arr : list Player) (c : Ctx),
    updateWhitelist_forEach ids arr c
    = (arr ++ resolveAll (CoveyTownController.players (town c)) ids, c).
Proof.
  induction ids as [|i ids IH]; intros arr c.
  - cbn. unfold ret, resolveAll. cbn. now rewrite app_nil_r.
  - cbn [updateWhitelist_forEach]. rewrite resolveAll_cons.
    unfold playerFromID, bind, ret, townPlayers.
    destruct (findByID _ i) as [p|]; rewrite IH; [|reflexivity].
    unfold push. now rewrite <- app_assoc.
Qed.

Lemma updateWhitelist_eq (ids : list string) (c : Ctx) :
  updateWhitelist ids c
  = (tt, {| this :=
              {| coveyTownController := coveyTownController (this c);
                 players := players (this c);
                 coveySpaceID := coveySpaceID (this c);
                 spaceHostID := spaceHostID (this c);
                 presenterID := presenterID (this c);
                 whitelist := resolveAll (CoveyTownController.players (town c)) ids;
                 isPrivate := isPrivate (this c) |};
            town := town c |}).
Proof.
  unfold updateWhitelist, bind. rewrite updateWhitelist_forEach_eq.
  reflexivity.
Qed.

(** ** The privacy flag and the host *)

Lemma step_flag_matches_host (op : Op) (c : Ctx) :
  flag_matches_host (this c) -> flag_matches_host (this (step op c)).
Proof.
  unfold flag_matches_host. intros H.
  destruct op as [i|i|h|p|l|i|i| |ps]; cbn [step].
  - unfold_methods.
    destruct (findByID _ i) as [np|]; [|flag_done].
    destruct (includes _ np); [flag_done|].
    cbn. destruct (isPrivate (this c)) eqn:Ep; [|flag_done].
    cbn. destruct (spaceHostID (this c)) as [hid|] eqn:Eh; [|flag_done].
    cbn. destruct (findByID _ hid); [|flag_done].
    cbn. destruct (includes _ np || (hid =? i)%string); flag_done.
  - unfold_methods. destruct (findByID _ i); flag_done.
  - unfold_methods. destruct h as [h|]; [|flag_done].
    cbn. destruct (spaceHostID (this c)) eqn:Eh; [flag_done|].
    cbn. destruct (findByID _ h); flag_done.
  - unfold_methods. flag_done.
  - rewrite updateWhitelist_eq. flag_done.
  - unfold_methods. destruct (findByID _ i) as [np|]; [|flag_done].
    cbn. destruct (includes _ np); flag_done.
  - unfold_methods. destruct (findByID _ i); flag_done.
  - unfold_methods. flag_done.
  - exact H.
Qed.

Lemma run_flag_matches_host (ops : list Op) :
  forall c, flag_matches_host (this c) -> flag_matches_host (this (run ops c)).
Proof.
  induction ops as [|op ops IH]; intros c H; cbn.
  - exact H.
  - apply IH. now apply step_flag_matches_host.
Qed.

Lemma newSpace_flag_matches_host (coveySpaceID townID : string) :
  flag_matches_host (newSpace coveySpaceID townID).
Proof. unfold flag_matches_host; cbn. split; [discriminate|congruence]. Qed.

(** C1.  Starting from a freshly constructed space, after every sequence
    of calls of addPlayer, removePlayer, updateSpaceHost, updatePresenter,
    updateWhitelist, addPlayerToWhiteList, removePlayerFromWhiteList and
    publicizeSpace, whatever the town does in between, the stored
    [isPrivate] flag is true if and only if the stored host is not null. *)
Theorem isPrivate_iff_host_after_every_trace :
  forall (coveySpaceID townID : string) (townController : CoveyTownController.t)
         (ops : list Op),
    let s := this (run ops (constructor coveySpaceID townID townController)) in
    isPrivate s = true <-> spaceHostID s <> None.
Proof.
  intros sid tid t ops.
  apply (run_flag_matches_host ops (constructor sid tid t)).
  apply newSpace_flag_matches_host.
Qed.

(** ** Facts about the array operations *)

Lemma findByID_id (arr : list Player) (playerID : string) (p : Player) :
  findByID arr playerID = Some p -> id p = playerID.
Proof.
  unfold findByID. intros H. apply find_some in H.
  now apply String.eqb_eq.
Qed.

Lemma findByID_In (arr : list Player) (playerID : string) (p : Player) :
  findByID arr playerID = Some p -> In p arr.
Proof. unfold findByID. intros H. now apply find_some in H. Qed.

Lemma withoutID_In (arr : list Player) (playerID : string) (q : Player) :
  In q (withoutID arr playerID) <-> In q arr /\ id q <> playerID.
Proof.
  unfold withoutID. rewrite filter_In, negb_true_iff.
  now rewrite String.eqb_neq.
Qed.

Lemma withoutID_absent (arr : list Player) (playerID : string) :
  (forall q, In q arr -> id q <> playerID) -> withoutID arr playerID = arr.
Proof.
  unfold withoutID.
  induction arr as [|q arr IH]; intros H; cbn; [reflexivity|].
  destruct (String.eqb_spec (id q) playerID) as [E|E]; cbn.
  - exfalso. apply (H q); [now left|exact E].
  - f_equal. apply IH. intros r Hr. apply H. now right.
Qed.

Lemma resolveAll_In (townPlayers : list Player) (ids : list string) (q : Player) :
  In q (resolveAll townPlayers ids)
  <-> exists i, In i ids /\ findByID townPlayers i = Some q.
Proof.
  unfold resolveAll. rewrite in_flat_map. split.
  - intros [i [Hi Hq]]. exists i. split; [exact Hi|].
    destruct (findByID townPlayers i) as [p|]; cbn in Hq; [|contradiction].
    destruct Hq as [->|[]]. reflexivity.
  - intros [i [Hi Hq]]. exists i. split; [exact Hi|]. rewrite Hq. now left.
Qed.

(** ** The methods as equations on the context *)

Lemma addPlayer_eq (newPlayerID : string) (c : Ctx) :
  addPlayer newPlayerID c =
  match resolves c newPlayerID with
  | None => (false, c)
  | Some newPlayer =>
      if includes (players (this c)) newPlayer then (true, c)
      else if negb (isPrivate (this c)) then (true, snd (pushPlayer newPlayer c))
      else match spaceHostID (this c) with
           | None => (false, c)
           | Some hostID =>
               match resolves c hostID with
               | None => (true, snd (pushPlayer newPlayer (snd (publicizeSpace c))))
               | Some _ =>
                   if includes (whitelist (this c)) newPlayer
                      || String.eqb hostID newPlayerID
                   then (true, snd (pushPlayer newPlayer c))
                   else (false, c)
               end
           end
  end.
Proof.
  destruct c as [[tid ps sid host pres wl priv] [tps evs]].
  unfold resolves. unfold_methods. cbn.
  destruct (findByID tps newPlayerID) as [np|]; cbn; [|reflexivity].
  destruct (includes ps np); cbn; [reflexivity|].
  destruct priv; cbn; [|reflexivity].
  destruct host as [h|]; cbn; [|reflexivity].
  destruct (findByID tps h); cbn; [|reflexivity].
  destruct (includes wl np || (h =? newPlayerID)%string); reflexivity.
Qed.

Lemma updateSpaceHost_some_eq (newHostID : string) (c : Ctx) :
  updateSpaceHost (Some newHostID) c =
  match spaceHostID (this c) with
  | Some _ => (false, c)
  | None =>
      (true,
       {| this :=
            {| coveyTownController := coveyTownController (this c);
               players := match resolves c newHostID with
                          | Some p => [p]
                          | None => players (this c)
                          end;
               coveySpaceID := coveySpaceID (this c);
               spaceHostID := Some newHostID;
               presenterID := presenterID (this c);
               whitelist := whitelist (this c);
               isPrivate := true |};
          town := CoveyTownController.claimSpace (coveySpaceID (this c)) (town c) |})
  end.
Proof.
  destruct c as [[tid ps sid host pres wl priv] [tps evs]].
  unfold resolves. unfold_methods. cbn.
  destruct host; [reflexivity|]. cbn.
  destruct (findByID tps newHostID); reflexivity.
Qed.

Lemma pushPlayer_players (p : Player) (c : Ctx) :
  players (this (snd (pushPlayer p c))) = push (players (this c)) p.
Proof. reflexivity. Qed.

Lemma publicizeSpace_players (c : Ctx) :
  players (this (snd (publicizeSpace c))) = players (this c).
Proof. reflexivity. Qed.

(** ** Admission into a private space *)

(** C2.  In a private space with host [hostID], for an identifier that
    resolves to a player who is not yet a member, [addPlayer] returns true
    exactly when the host no longer resolves, or the identifier is the
    host's, or the player is on the whitelist.  When the host no longer
    resolves the space is publicized first and the player is then pushed:
    afterwards the flag is off, host and presenter are null, the whitelist
    is empty and the members are the old ones followed by the player.
    When the host resolves and the call succeeds the player is pushed and
    the space stays private with its host, presenter and whitelist; when
    the call fails nothing changes. *)
Theorem addPlayer_private_space :
  forall (c : Ctx) (hostID newPlayerID : string) (newPlayer : Player),
    isPrivate (this c) = true ->
    spaceHostID (this c) = Some hostID ->
    resolves c newPlayerID = Some newPlayer ->
    includes (players (this c)) newPlayer = false ->
    (fst (addPlayer newPlayerID c) = true
     <-> resolves c hostID = None
         \/ hostID = newPlayerID
         \/ includes (whitelist (this c)) newPlayer = true)
    /\ (resolves c hostID = None ->
        addPlayer newPlayerID c
        = (true, snd (pushPlayer newPlayer (snd (publicizeSpace c)))))
    /\ (resolves c hostID <> None ->
        fst (addPlayer newPlayerID c) = true ->
        snd (addPlayer newPlayerID c) = snd (pushPlayer newPlayer c))
    /\ (fst (addPlayer newPlayerID c) = true ->
        players (this (snd (addPlayer newPlayerID c)))
        = push (players (this c)) newPlayer)
    /\ (fst (addPlayer newPlayerID c) = false ->
        snd (addPlayer newPlayerID c) = c)
    /\ (resolves c hostID = None ->
        fst (addPlayer newPlayerID c) = true
        /\ isPrivate (this (snd (addPlayer newPlayerID c))) = false
        /\ spaceHostID (this (snd (addPlayer newPlayerID c))) = None
        /\ presenterID (this (snd (addPlayer newPlayerID c))) = None
        /\ whitelist (this (snd (addPlayer newPlayerID c))) = []
        /\ players (this (snd (addPlayer newPlayerID c)))
           = push (players (this c)) newPlayer
        /\ town (snd (addPlayer newPlayerID c)) = town c)
    /\ (resolves c hostID <> None ->
        fst (addPlayer newPlayerID c) = true ->
        isPrivate (this (snd (addPlayer newPlayerID c))) = true
        /\ spaceHostID (this (snd (addPlayer newPlayerID c))) = Some hostID
        /\ presenterID (this (snd (addPlayer newPlayerID c))) = presenterID (this c)
        /\ whitelist (this (snd (addPlayer newPlayerID c))) = whitelist (this c)
        /\ town (snd (addPlayer newPlayerID c)) = town c).
Proof.
  intros c hostID newPlayerID newPlayer Hpriv Hhost Hres Hnew.
  rewrite addPlayer_eq, Hres, Hnew, Hpriv, Hhost. cbn [negb].
  destruct (resolves c hostID) as [hp|] eqn:Ehp.
  - destruct (includes (whitelist (this c)) newPlayer) eqn:Ewl;
      [|destruct (String.eqb_spec hostID newPlayerID) as [E|E]]; cbn;
      (repeat split; try discriminate; try congruence; auto).
    intros [H|[H|H]]; congruence.
  - cbn. repeat split; try discriminate; try congruence; auto.
Qed.

Lemma addPlayer_private_space_witness :
  (isPrivate (this hostGone) = true
   /\ spaceHostID (this hostGone) = Some "a"
   /\ presenterID (this hostGone) = Some "c"
   /\ whitelist (this hostGone) = [carol]
   /\ resolves hostGone "b" = Some bob
   /\ includes (players (this hostGone)) bob = false
   /\ resolves hostGone "a" = None
   /\ fst (addPlayer "b" hostGone) = true
   /\ isPrivate (this (snd (addPlayer "b" hostGone))) = false
   /\ spaceHostID (this (snd (addPlayer "b" hostGone))) = None
   /\ presenterID (this (snd (addPlayer "b" hostGone))) = None
   /\ whitelist (this (snd (addPlayer "b" hostGone))) = []
   /\ players (this (snd (addPlayer "b" hostGone))) = push [alice] bob)
  /\ (isPrivate (this aliceHosts) = true
      /\ spaceHostID (this aliceHosts) = Some "a"
      /\ resolves aliceHosts "b" = Some bob
      /\ includes (players (this aliceHosts)) bob = false
      /\ fst (addPlayer "b" aliceHosts) = false
      /\ snd (addPlayer "b" aliceHosts) = aliceHosts).
Proof.
  split.
  - destruct (addPlayer_private_space hostGone "a" "b" bob
                eq_refl eq_refl eq_refl eq_refl)
      as (_ & _ & _ & _ & _ & Hgone & _).
    destruct (Hgone eq_refl) as (H1 & H2 & H3 & H4 & H5 & H6 & _).
    do 7 (split; [reflexivity|]).
    split; [exact H1|]. split; [exact H2|]. split; [exact H3|].
    split; [exact H4|]. split; [exact H5|]. exact H6.
  - destruct (addPlayer_private_space aliceHosts "a" "b" bob
                eq_refl eq_refl eq_refl eq_refl)
      as (_ & _ & _ & _ & Hfail & _).
    do 5 (split; [reflexivity|]). exact (Hfail eq_refl).
Defined.

(** ** Claiming a space that already has a host *)

(** C9.  On a space that has a host, [updateSpaceHost] with a non-null
    identifier returns false and leaves the whole state as it was: the
    host, the members, the whitelist and the presenter, and the town
    controller is not notified. *)
Theorem updateSpaceHost_refused_when_hosted :
  forall (c : Ctx) (hostID newHostID : string),
    spaceHostID (this c) = Some hostID ->
    updateSpaceHost (Some newHostID) c = (false, c).
Proof.
  intros c hostID newHostID H. now rewrite updateSpaceHost_some_eq, H.
Qed.

Lemma updateSpaceHost_refused_when_hosted_witness :
  spaceHostID (this aliceHosts) = Some "a"
  /\ updateSpaceHost (Some "b") aliceHosts = (false, aliceHosts).
Proof.
  split; [reflexivity|].
  apply (updateSpaceHost_refused_when_hosted aliceHosts "a" "b"). reflexivity.
Defined.

(** ** Claiming a public space *)

(** C3 as stated fails: a claim by an identifier that does
    not resolve in the town succeeds and leaves the members in place.  Bob
    is in the space, the identifier "ghost" claims it, Bob is still a member. *)
Lemma claim_by_unresolved_id_keeps_members :
  let c := run [OpAddPlayer "b"] freshCtx in
  let c' := snd (updateSpaceHost (Some "ghost") c) in
  spaceHostID (this c) = None
  /\ fst (updateSpaceHost (Some "ghost") c) = true
  /\ spaceHostID (this c') = Some "ghost"
  /\ In bob (players (this c'))
  /\ id bob <> "ghost".
Proof.
  cbv zeta. repeat split; try reflexivity.
  - now left.
  - discriminate.
Qed.

(** C3, amended.  On a space without host, [updateSpaceHost] with a
    non-null identifier returns true, stores the identifier as host, sets
    the flag, notifies the town controller, and leaves presenter and
    whitelist alone.  When the identifier resolves to a player, the members
    become exactly that player (every other member is removed); when it
    does not resolve, the members are left as they were. *)
Theorem updateSpaceHost_claims_public_space :
  forall (c : Ctx) (newHostID : string),
    spaceHostID (this c) = None ->
    let c' := snd (updateSpaceHost (Some newHostID) c) in
    fst (updateSpaceHost (Some newHostID) c) = true
    /\ spaceHostID (this c') = Some newHostID
    /\ isPrivate (this c') = true
    /\ presenterID (this c') = presenterID (this c)
    /\ whitelist (this c') = whitelist (this c)
    /\ town c' = CoveyTownController.claimSpace (coveySpaceID (this c)) (town c)
    /\ players (this c') = match resolves c newHostID with
                           | Some p => [p]
                           | None => players (this c)
                           end
    /\ (forall p, resolves c newHostID = Some p ->
          forall q, In q (players (this c')) -> q = p /\ id q = newHostID).
Proof.
  intros c newHostID H. cbv zeta.
  rewrite updateSpaceHost_some_eq, H. cbn.
  do 7 (split; [reflexivity|]).
  intros p Hp q Hq. rewrite Hp in Hq. destruct Hq as [<-|[]].
  split; [reflexivity|]. now apply findByID_id in Hp.
Qed.

Lemma updateSpaceHost_claims_public_space_witness :
  spaceHostID (this (run [OpAddPlayer "b"] freshCtx)) = None
  /\ players (this (snd (updateSpaceHost (Some "a") (run [OpAddPlayer "b"] freshCtx))))
     = [alice].
Proof.
  split; [reflexivity|].
  apply (updateSpaceHost_claims_public_space (run [OpAddPlayer "b"] freshCtx) "a").
  reflexivity.
Defined.

(** ** Releasing the host *)

(** C4 as stated fails on a public space: the release is not
    a no-op there.  A fresh space whose presenter has been set has no host,
    and releasing the host resets the presenter. *)
Lemma release_on_public_space_changes_state :
  let c := run [OpUpdatePresenter (Some "b")] freshCtx in
  spaceHostID (this c) = None
  /\ isPrivate (this c) = false
  /\ presenterID (this c) = Some "b"
  /\ presenterID (this (snd (updateSpaceHost None c))) = None
  /\ snd (updateSpaceHost None c) <> c.
Proof.
  cbv zeta. repeat split; try reflexivity. discriminate.
Qed.

(** C4, amended.  [updateSpaceHost(null)] always returns true.  In every
    state it sets host and presenter to null, empties the whitelist and
    clears the flag, and touches neither the members nor the town; a
    second release changes nothing more.  Afterwards [addPlayer] succeeds
    for every identifier that resolves, also after the town has changed.
    On a public space the host stays null and the members stay; the call is
    a no-op there exactly when the presenter was already null and the
    whitelist already empty. *)
Theorem updateSpaceHost_null_releases :
  forall (c : Ctx),
    let c' := snd (updateSpaceHost None c) in
    fst (updateSpaceHost None c) = true
    /\ spaceHostID (this c') = None
    /\ presenterID (this c') = None
    /\ whitelist (this c') = []
    /\ isPrivate (this c') = false
    /\ players (this c') = players (this c)
    /\ coveySpaceID (this c') = coveySpaceID (this c)
    /\ town c' = town c
    /\ updateSpaceHost None c' = (true, c')
    /\ (forall i p, resolves c' i = Some p -> fst (addPlayer i c') = true)
    /\ (forall ps i p, findByID ps i = Some p ->
          fst (addPlayer i (afterTownChange ps c')) = true)
    /\ (spaceHostID (this c) = None -> isPrivate (this c) = false ->
        (c' = c <-> presenterID (this c) = None /\ whitelist (this c) = [])).
Proof.
  intros c. cbv zeta.
  split; [reflexivity|]. split; [reflexivity|]. split; [reflexivity|].
  split; [reflexivity|]. split; [reflexivity|]. split; [reflexivity|].
  split; [reflexivity|]. split; [reflexivity|]. split; [reflexivity|].
  split; [|split].
  - intros i p H. rewrite addPlayer_eq, H.
    change (isPrivate (this (snd (updateSpaceHost None c)))) with false.
    now destruct (includes _ p).
  - intros ps i p H. rewrite addPlayer_eq.
    change (resolves (afterTownChange ps (snd (updateSpaceHost None c))) i)
      with (findByID ps i).
    rewrite H.
    change (isPrivate (this (afterTownChange ps (snd (updateSpaceHost None c)))))
      with false.
    now destruct (includes _ p).
  - destruct c as [[tid ps sid host pres wl priv] [tps evs]]. cbn.
    intros -> ->. split.
    + intros E. injection E as -> ->. now split.
    + intros [-> ->]. reflexivity.
Qed.

Lemma updateSpaceHost_null_releases_witness :
  resolves (snd (updateSpaceHost None aliceHosts)) "b" = Some bob
  /\ fst (addPlayer "b" (snd (updateSpaceHost None aliceHosts))) = true.
Proof.
  split; [reflexivity|].
  apply (updateSpaceHost_null_releases aliceHosts) with (p := bob). reflexivity.
Defined.

(** ** Identifiers that do not resolve *)

(** C5 as stated fails for the host and for the presenter:
    neither [updateSpaceHost] nor [updatePresenter] looks the identifier up
    before storing it.  In a town without players nothing resolves, and
    yet "ghost" becomes host, and presenter. *)
Lemma unresolved_host_and_presenter_are_stored :
  let c := constructor "s1" "t1" emptyTown in
  resolves c "ghost" = None
  /\ fst (updateSpaceHost (Some "ghost") c) = true
  /\ spaceHostID (this (snd (updateSpaceHost (Some "ghost") c))) = Some "ghost"
  /\ presenterID (this (snd (updatePresenter (Some "ghost") c))) = Some "ghost".
Proof. cbv zeta. repeat split; reflexivity. Qed.

Lemma addPlayerToWhiteList_eq (newPlayerID : string) (c : Ctx) :
  addPlayerToWhiteList newPlayerID c =
  match resolves c newPlayerID with
  | None => (whitelist (this c), c)
  | Some newPlayer =>
      if includes (whitelist (this c)) newPlayer then (whitelist (this c), c)
      else (push (whitelist (this c)) newPlayer,
            snd (set_whitelist (push (whitelist (this c)) newPlayer) c))
  end.
Proof.
  destruct c as [[tid ps sid host pres wl priv] [tps evs]].
  unfold resolves. unfold_methods. cbn.
  destruct (findByID tps newPlayerID) as [np|]; cbn; [|reflexivity].
  destruct (includes wl np); reflexivity.
Qed.

(** C5, amended.  The operations that store player objects reject an
    identifier that does not resolve: [addPlayer] returns false and
    [addPlayerToWhiteList] returns the whitelist as it was, both without
    any change of state, and every entry that [updateWhitelist] stores is
    a player some input identifier resolved to (so it carries an
    identifier that resolves).  The operations that store an identifier
    store it as given: [updateSpaceHost] on a space without host makes an
    unresolved identifier the host, and [updatePresenter] makes it the
    presenter. *)
Theorem unresolved_identifiers :
  forall (c : Ctx) (playerID : string),
    resolves c playerID = None ->
    addPlayer playerID c = (false, c)
    /\ addPlayerToWhiteList playerID c = (whitelist (this c), c)
    /\ (forall ids q,
          In q (whitelist (this (snd (updateWhitelist ids c)))) ->
          (exists i, In i ids /\ resolves c i = Some q)
          /\ id q <> playerID)
    /\ presenterID (this (snd (updatePresenter (Some playerID) c))) = Some playerID
    /\ (spaceHostID (this c) = None ->
        fst (updateSpaceHost (Some playerID) c) = true
        /\ spaceHostID (this (snd (updateSpaceHost (Some playerID) c)))
           = Some playerID).
Proof.
  intros c playerID H.
  split; [now rewrite addPlayer_eq, H|].
  split; [now rewrite addPlayerToWhiteList_eq, H|].
  split; [|split].
  - intros ids q Hq. rewrite updateWhitelist_eq in Hq. cbn in Hq.
    apply resolveAll_In in Hq. split; [exact Hq|].
    destruct Hq as [i [_ Hq]]. intros E.
    apply findByID_id in Hq as Hi. unfold resolves in *. congruence.
  - reflexivity.
  - intros Hh. rewrite updateSpaceHost_some_eq, Hh. now split.
Qed.

Lemma unresolved_identifiers_witness :
  resolves aliceHosts "ghost" = None
  /\ addPlayer "ghost" aliceHosts = (false, aliceHosts).
Proof.
  split; [reflexivity|].
  apply (unresolved_identifiers aliceHosts "ghost"). reflexivity.
Defined.

(** ** Replacing the whitelist *)

Lemma updateWhitelist_read (ids : list string) (c : Ctx) :
  whitelist (this (snd (updateWhitelist ids c)))
  = resolveAll (CoveyTownController.players (town c)) ids.
Proof. now rewrite updateWhitelist_eq. Qed.

(** X28.  Read as a set, the new whitelist is the set of players the input
    resolves to: it depends on the input only through its set of
    identifiers. *)
Lemma updateWhitelist_members (ids ids' : list string) (c : Ctx) :
  (forall i, In i ids <-> In i ids') ->
  forall q,
    In q (whitelist (this (snd (updateWhitelist ids c))))
    <-> In q (whitelist (this (snd (updateWhitelist ids' c)))).
Proof.
  intros Hset q. rewrite !updateWhitelist_read, !resolveAll_In.
  split; intros [i [Hi Hq]]; exists i; (split; [now apply Hset|exact Hq]).
Qed.

Lemma resolveAll_NoDup (townPlayers : list Player) (ids : list string) :
  NoDup ids -> NoDup (resolveAll townPlayers ids).
Proof.
  induction 1 as [|i ids Hi Hnd IH].
  - constructor.
  - rewrite resolveAll_cons.
    destruct (findByID townPlayers i) as [p|] eqn:E; [|exact IH].
    constructor; [|exact IH].
    intros Hp. apply resolveAll_In in Hp. destruct Hp as [j [Hj Hq]].
    apply findByID_id in E. apply findByID_id in Hq. congruence.
Qed.

(** X29.  An input without repetition gives a whitelist without repetition. *)
Lemma updateWhitelist_NoDup (ids : list string) (c : Ctx) :
  NoDup ids -> NoDup (whitelist (this (snd (updateWhitelist ids c)))).
Proof. rewrite updateWhitelist_read. apply resolveAll_NoDup. Qed.

(** C7.  The code at an input with a repeated identifier: the whitelist
    read back after [updateWhitelist(["a", "a"])] has two entries, Alice
    twice, where the specification promises a single one; [addPlayerToWhiteList]
    called twice with "a" stores her once. *)
Theorem updateWhitelist_keeps_repeated_identifiers :
  whitelist (this (snd (updateWhitelist ["a"; "a"] freshCtx))) = [alice; alice]
  /\ length (whitelist (this (snd (updateWhitelist ["a"; "a"] freshCtx)))) = 2
  /\ whitelist (this (run [OpAddPlayerToWhiteList "a"; OpAddPlayerToWhiteList "a"]
                        freshCtx)) = [alice].
Proof. repeat split; reflexivity. Qed.

(** ** Removing a player *)

(** C8 as stated fails for a member who has left the town:
    [removePlayer] looks the identifier up in the town first and does
    nothing when it is not found.  Bob joins the space, leaves the town,
    and [removePlayer("b")] leaves him among the members. *)
Lemma removePlayer_keeps_member_who_left_town :
  let c := run [OpAddPlayer "b"; TownChanges [alice]] freshCtx in
  In bob (players (this c))
  /\ id bob = "b"
  /\ In bob (players (this (snd (removePlayer "b" c)))).
Proof. cbv zeta. repeat split; try reflexivity; now left. Qed.

Lemma removePlayer_eq (playerID : string) (c : Ctx) :
  removePlayer playerID c =
  (tt, match resolves c playerID with
       | Some _ => snd (set_players (withoutID (players (this c)) playerID) c)
       | None => c
       end).
Proof.
  unfold resolves. unfold_methods.
  destruct (findByID _ playerID) as [p|] eqn:E; [|reflexivity].
  apply findByID_id in E. now rewrite E.
Qed.

(** C8, amended.  [removePlayer] never changes host, presenter, whitelist,
    flag or town, also when the removed player is host or presenter.  When
    the identifier resolves in the town, the members with that identifier
    are removed and the others stay, in their order; the call changes
    nothing when no member has that identifier.  When the identifier does
    not resolve in the town, the call changes nothing at all. *)
Theorem removePlayer_effect :
  forall (c : Ctx) (playerID : string),
    let c' := snd (removePlayer playerID c) in
    spaceHostID (this c') = spaceHostID (this c)
    /\ presenterID (this c') = presenterID (this c)
    /\ whitelist (this c') = whitelist (this c)
    /\ isPrivate (this c') = isPrivate (this c)
    /\ town c' = town c
    /\ players (this c') = match resolves c playerID with
                           | Some _ => withoutID (players (this c)) playerID
                           | None => players (this c)
                           end
    /\ (resolves c playerID <> None ->
        forall q, In q (players (this c'))
                  <-> In q (players (this c)) /\ id q <> playerID)
    /\ ((forall q, In q (players (this c)) -> id q <> playerID) -> c' = c)
    /\ (resolves c playerID = None -> c' = c).
Proof.
  intros c playerID. cbv zeta. rewrite removePlayer_eq.
  destruct (resolves c playerID) as [p|] eqn:E; cbn;
    (do 6 (split; [reflexivity|])); (split; [|split]).
  - intros _ q. apply withoutID_In.
  - intros H. rewrite (withoutID_absent _ _ H).
    now destruct c as [[tid ps sid host pres wl priv] t].
  - discriminate.
  - intros H. now contradiction H.
  - reflexivity.
  - reflexivity.
Qed.

Lemma removePlayer_effect_witness :
  resolves aliceHosts "a" <> None
  /\ forall q, In q (players (this (snd (removePlayer "a" aliceHosts))))
               <-> In q (players (this aliceHosts)) /\ id q <> "a".
Proof.
  split; [discriminate|].
  apply (removePlayer_effect aliceHosts "a"). discriminate.
Defined.

(** ** The request handlers *)

Lemma lookup_store {V : Type} (key : string) (v v' : V) (table : list (string * V)) :
  lookup key table = Some v -> lookup key (store key v' table) = Some v'.
Proof.
  induction table as [|[k v0] rest IH]; cbn; [discriminate|].
  destruct (String.eqb_spec k key) as [E|E]; cbn.
  - intros _. apply String.eqb_eq in E. now rewrite E.
  - intros H. apply String.eqb_neq in E. rewrite E. now apply IH.
Qed.

(** When the space exists the claim handler answers [isOK: true], whatever
    [updateSpaceHost] returned. *)
Lemma spaceClaimHandler_isOK (requestData : SpaceClaimRequest.t) (w : World)
  (s : CoveySpaceController) :
  getControllerForSpace w (SpaceClaimRequest.coveySpaceID requestData) = Some s ->
  isOK (fst (spaceClaimHandler requestData w)) = true.
Proof.
  intros H. unfold spaceClaimHandler. rewrite H.
  now destruct (invoke _ s _ w).
Qed.

(** C6.  The code at a claim on a space that already has a host: Alice
    hosts "s1", Bob's claim makes [updateSpaceHost] return false, and the
    handler still answers [isOK: true] with the message that the host was
    updated to Bob, while nothing in the stores has changed and Alice is
    still the host. *)
Theorem spaceClaimHandler_reports_refused_claim_as_success :
  (exists s,
      getControllerForSpace aliceHostsWorld "s1" = Some s
      /\ spaceHostID s = Some "a"
      /\ fst (updateSpaceHost (Some "b")
                {| this := s; town := townOf aliceHostsWorld s |}) = false)
  /\ fst (spaceClaimHandler claimByBob aliceHostsWorld)
     = {| isOK := true;
          message := Some "The host was update to be player with ID b";
          response := None |}
  /\ snd (spaceClaimHandler claimByBob aliceHostsWorld) = aliceHostsWorld.
Proof.
  split; [|split; reflexivity].
  eexists. split; [reflexivity|]. split; reflexivity.
Qed.

Section HandlerProperties.

Variable CoveySpaceList : Type.
Variable createSpace : string -> World -> World.
Variable getSpaces : World -> CoveySpaceList.
Variable disbandSpace : string -> World -> World.
Variable updateSpace : string -> Player -> Player -> list Player -> World -> World.
Variable joinSpace : string -> string -> CoveyTownController.t -> CoveyTownController.t.

(** X30.  Every envelope with [isOK: false] that a handler builds carries a
    message and no response. *)
Lemma handlers_failure_envelopes (w : World) :
  (forall r, well_formed_failure (fst (spaceCreateHandler createSpace r w)))
  /\ (forall r, well_formed_failure (fst (spaceJoinHandler joinSpace r w)))
  /\ (forall r, well_formed_failure (fst (spaceListHandler CoveySpaceList getSpaces r w)))
  /\ (forall r, well_formed_failure (fst (spaceClaimHandler r w)))
  /\ (forall r, well_formed_failure (fst (spaceDisbandHandler disbandSpace r w)))
  /\ (forall r, well_formed_failure (fst (spaceUpdateHandler updateSpace r w))).
Proof.
  unfold well_formed_failure, spaceCreateHandler, spaceJoinHandler,
    spaceListHandler, spaceClaimHandler, spaceDisbandHandler, spaceUpdateHandler.
  split; [|split; [|split; [|split; [|split]]]]; intros r;
    repeat match goal with
           | |- context [match ?x with _ => _ end] => destruct x
           end;
    cbn; intros H; (discriminate H || (split; [discriminate|reflexivity])).
Qed.

(** C10.  For a join request whose town exists and whose space does not,
    the handler has called [joinSpace] on the town controller before it
    looks the space up: it answers [isOK: false] with "Error: No such
    space", and the town controller in the store is the one [joinSpace]
    produced, not the one the request found. *)
Theorem spaceJoinHandler_joins_town_before_space_check :
  forall (requestData : SpaceJoinRequest.t) (w : World)
         (townController : CoveyTownController.t),
    getControllerForTown w (SpaceJoinRequest.coveyTownID requestData)
    = Some townController ->
    getControllerForSpace w (SpaceJoinRequest.coveySpaceID requestData) = None ->
    let joined := joinSpace (SpaceJoinRequest.playerID requestData)
                    (SpaceJoinRequest.coveySpaceID requestData) townController in
    let w' := snd (spaceJoinHandler joinSpace requestData w) in
    fst (spaceJoinHandler joinSpace requestData w)
    = {| isOK := false; message := Some "Error: No such space"; response := None |}
    /\ getControllerForTown w' (SpaceJoinRequest.coveyTownID requestData)
       = Some joined
    /\ w' = {| townsStore := store (SpaceJoinRequest.coveyTownID requestData)
                                joined (townsStore w);
               spacesStore := spacesStore w |}.
Proof.
  intros r w t Ht Hs. cbv zeta. unfold spaceJoinHandler. rewrite Ht.
  unfold getControllerForSpace in *. cbn [spacesStore]. rewrite Hs. cbn.
  split; [reflexivity|]. split; [|reflexivity].
  unfold getControllerForTown in *. cbn. now apply lookup_store with (v := t).
Qed.

End HandlerProperties.

Lemma spaceJoinHandler_joins_town_before_space_check_witness :
  getControllerForTown sampleWorld "t1" = Some sampleTown
  /\ getControllerForSpace sampleWorld "nowhere" = None
  /\ fst (spaceJoinHandler joinSpace_recording joinNowhere sampleWorld)
     = {| isOK := false; message := Some "Error: No such space"; response := None |}
  /\ getControllerForTown
       (snd (spaceJoinHandler joinSpace_recording joinNowhere sampleWorld)) "t1"
     = Some (joinSpace_recording "b" "nowhere" sampleTown).
Proof.
  split; [reflexivity|]. split; [reflexivity|].
  destruct (spaceJoinHandler_joins_town_before_space_check joinSpace_recording
              joinNowhere sampleWorld sampleTown eq_refl eq_refl) as [He [Ht _]].
  split; [exact He|exact Ht].
Defined.

(** With that [joinSpace] the refused join has left its trace in the town:
    the failure is not atomic. *)
Lemma refused_join_changes_the_town :
  isOK (fst (spaceJoinHandler joinSpace_recording joinNowhere sampleWorld)) = false
  /\ snd (spaceJoinHandler joinSpace_recording joinNowhere sampleWorld) <> sampleWorld
  /\ getControllerForTown
       (snd (spaceJoinHandler joinSpace_recording joinNowhere sampleWorld)) "t1"
     = Some {| CoveyTownController.players := [alice; bob; carol];
               CoveyTownController.events :=
                 [CoveyTownController.PlayerJoinedSpace "b" "nowhere"] |}.
Proof. repeat split; try reflexivity. discriminate. Qed.

(** * Further properties of the space controller *)

Lemma same_object_refl (p : Player) : same_object p p = true.
Proof. apply Nat.eqb_refl. Qed.

Lemma includes_app (a b : list Player) (p : Player) :
  includes (a ++ b) p = includes a p || includes b p.
Proof. unfold includes. apply existsb_app. Qed.

Lemma includes_push (arr : list Player) (p : Player) :
  includes (push arr p) p = true.
Proof.
  unfold push. rewrite includes_app. unfold includes at 2. cbn.
  rewrite same_object_refl. now rewrite orb_true_r.
Qed.

Lemma In_includes (arr : list Player) (p : Player) :
  In p arr -> includes arr p = true.
Proof.
  intros H. unfold includes. apply existsb_exists. exists p.
  split; [exact H|apply same_object_refl].
Qed.

Lemma includes_ref (arr : list Player) (p : Player) :
  includes arr p = true <-> In (ref p) (map ref arr).
Proof.
  unfold includes. rewrite existsb_exists, in_map_iff. unfold same_object.
  split; intros [q [H1 H2]]; exists q.
  - apply Nat.eqb_eq in H2. now split.
  - split; [exact H2|]. apply Nat.eqb_eq. now symmetry.
Qed.

Lemma withoutID_app (a b : list Player) (playerID : string) :
  withoutID (a ++ b) playerID = withoutID a playerID ++ withoutID b playerID.
Proof. unfold withoutID. apply filter_app. Qed.

Lemma removePlayerFromWhiteList_eq (playerID : string) (c : Ctx) :
  removePlayerFromWhiteList playerID c =
  (tt, match resolves c playerID with
       | Some _ => snd (set_whitelist (withoutID (whitelist (this c)) playerID) c)
       | None => c
       end).
Proof.
  unfold resolves. unfold_methods.
  destruct (findByID _ playerID) as [p|] eqn:E; [|reflexivity].
  apply findByID_id in E. now rewrite E.
Qed.

Lemma ctx_eta (c : Ctx) :
  {| this :=
       {| coveyTownController := coveyTownController (this c);
          players := players (this c);
          coveySpaceID := coveySpaceID (this c);
          spaceHostID := spaceHostID (this c);
          presenterID := presenterID (this c);
          whitelist := whitelist (this c);
          isPrivate := isPrivate (this c) |};
     town := town c |} = c.
Proof. now destruct c as [[tid ps sid host pres wl priv] t]. Qed.

(** ** Admission *)

(** X1.  Into a space whose flag is off, [addPlayer] admits every
    identifier that resolves: it returns true, the player is appended to
    the members unless that object is already among them, and nothing else
    of the space or the town changes. *)
Theorem addPlayer_public_space :
  forall (c : Ctx) (newPlayerID : string) (newPlayer : Player),
    isPrivate (this c) = false ->
    resolves c newPlayerID = Some newPlayer ->
    let c' := snd (addPlayer newPlayerID c) in
    fst (addPlayer newPlayerID c) = true
    /\ players (this c') = (if includes (players (this c)) newPlayer
                            then players (this c)
                            else push (players (this c)) newPlayer)
    /\ includes (players (this c')) newPlayer = true
    /\ spaceHostID (this c') = spaceHostID (this c)
    /\ presenterID (this c') = presenterID (this c)
    /\ whitelist (this c') = whitelist (this c)
    /\ isPrivate (this c') = false
    /\ town c' = town c.
Proof.
  intros c i p Hpriv Hres. cbv zeta. rewrite addPlayer_eq, Hres, Hpriv.
  destruct (includes (players (this c)) p) eqn:E; cbn.
  - repeat split; auto.
  - repeat split; auto. apply includes_push.
Qed.

Lemma addPlayer_public_space_witness :
  isPrivate (this freshCtx) = false
  /\ resolves freshCtx "b" = Some bob
  /\ players (this (snd (addPlayer "b" freshCtx))) = [bob].
Proof.
  split; [reflexivity|]. split; [reflexivity|].
  apply (addPlayer_public_space freshCtx "b" bob); reflexivity.
Defined.

(** X2.  [addPlayer] is idempotent: a second call with the same
    identifier returns what the first returned and changes nothing more. *)
Theorem addPlayer_idempotent :
  forall (c : Ctx) (newPlayerID : string),
    addPlayer newPlayerID (snd (addPlayer newPlayerID c))
    = addPlayer newPlayerID c.
Proof.
  intros c i. rewrite (addPlayer_eq i c).
  destruct (resolves c i) as [p|] eqn:Hres; cbn [snd].
  2:{ now rewrite addPlayer_eq, Hres. }
  destruct (includes (players (this c)) p) eqn:Hin; cbn [snd].
  { now rewrite addPlayer_eq, Hres, Hin. }
  assert (Hpush : forall c0, resolves c0 i = Some p ->
            addPlayer i (snd (pushPlayer p c0)) = (true, snd (pushPlayer p c0))).
  { intros c0 H0. rewrite addPlayer_eq.
    change (resolves (snd (pushPlayer p c0)) i) with (resolves c0 i).
    rewrite H0, pushPlayer_players, includes_push. reflexivity. }
  destruct (isPrivate (this c)) eqn:Hpriv; cbn [negb snd].
  2:{ now apply Hpush. }
  destruct (spaceHostID (this c)) as [h|] eqn:Hh; cbn [snd].
  2:{ now rewrite addPlayer_eq, Hres, Hin, Hpriv, Hh. }
  destruct (resolves c h) eqn:Hrh; cbn [snd].
  2:{ now apply Hpush. }
  destruct (includes (whitelist (this c)) p || (h =? i)%string) eqn:Hw; cbn [snd].
  - now apply Hpush.
  - now rewrite addPlayer_eq, Hres, Hin, Hpriv, Hh, Hrh, Hw.
Qed.

(** X3.  A refused [addPlayer] has no effect: when it returns false the
    space and the town are exactly as before. *)
Theorem addPlayer_refused_changes_nothing :
  forall (c : Ctx) (newPlayerID : string),
    fst (addPlayer newPlayerID c) = false ->
    snd (addPlayer newPlayerID c) = c.
Proof.
  intros c i. rewrite addPlayer_eq.
  destruct (resolves c i) as [p|]; [|reflexivity].
  destruct (includes (players (this c)) p); [discriminate|].
  destruct (isPrivate (this c)); cbn [negb]; [|discriminate].
  destruct (spaceHostID (this c)) as [h|]; [|reflexivity].
  destruct (resolves c h); [|discriminate].
  destruct (includes (whitelist (this c)) p || (h =? i)%string);
    [discriminate|reflexivity].
Qed.

Lemma addPlayer_refused_changes_nothing_witness :
  fst (addPlayer "b" aliceHosts) = false
  /\ snd (addPlayer "b" aliceHosts) = aliceHosts.
Proof.
  split; [reflexivity|].
  apply (addPlayer_refused_changes_nothing aliceHosts "b"). reflexivity.
Defined.

(** X4.  For an identifier that resolves, [addPlayer] returns true exactly
    when the player object is among the members afterwards. *)
Theorem addPlayer_true_iff_member_afterwards :
  forall (c : Ctx) (newPlayerID : string) (newPlayer : Player),
    resolves c newPlayerID = Some newPlayer ->
    (fst (addPlayer newPlayerID c) = true
     <-> includes (players (this (snd (addPlayer newPlayerID c)))) newPlayer = true).
Proof.
  intros c i p Hres. rewrite addPlayer_eq, Hres.
  destruct (includes (players (this c)) p) eqn:Hin; cbn [fst snd].
  { now rewrite Hin. }
  destruct (isPrivate (this c)); cbn [negb fst snd].
  2:{ rewrite pushPlayer_players, includes_push. tauto. }
  destruct (spaceHostID (this c)) as [h|]; cbn [fst snd].
  2:{ rewrite Hin. tauto. }
  destruct (resolves c h); cbn [fst snd].
  2:{ rewrite pushPlayer_players, includes_push. tauto. }
  destruct (includes (whitelist (this c)) p || (h =? i)%string); cbn [fst snd].
  - rewrite pushPlayer_players, includes_push. tauto.
  - rewrite Hin. tauto.
Qed.

Lemma addPlayer_true_iff_member_afterwards_witness :
  resolves aliceHosts "b" = Some bob
  /\ (fst (addPlayer "b" aliceHosts) = true
      <-> includes (players (this (snd (addPlayer "b" aliceHosts)))) bob = true).
Proof.
  split; [reflexivity|].
  apply (addPlayer_true_iff_member_afterwards aliceHosts "b" bob). reflexivity.
Defined.

(** ** The members along a trace *)

Lemma NoDup_map_filter {A B : Type} (f : A -> B) (g : A -> bool) (l : list A) :
  NoDup (map f l) -> NoDup (map f (filter g l)).
Proof.
  induction l as [|x l IH]; cbn; intros H; [constructor|].
  inversion H as [|y l' Hx Hl]; subst.
  destruct (g x); cbn; [|now apply IH].
  constructor; [|now apply IH].
  intros Hin. apply Hx. apply in_map_iff in Hin. destruct Hin as [z [Hz Hin]].
  apply filter_In in Hin. apply in_map_iff. exists z. tauto.
Qed.

Lemma NoDup_snoc {A : Type} (l : list A) (x : A) :
  NoDup l -> ~ In x l -> NoDup (l ++ [x]).
Proof.
  induction l as [|y l IH]; cbn; intros Hnd Hx.
  - repeat constructor. intros [].
  - inversion Hnd as [|z l' Hy Hl]; subst. constructor.
    + rewrite in_app_iff. cbn. intuition congruence.
    + apply IH; [exact Hl|tauto].
Qed.

Lemma NoDup_refs_push (arr : list Player) (p : Player) :
  NoDup (map ref arr) -> includes arr p = false ->
  NoDup (map ref (push arr p)).
Proof.
  intros Hnd Hin. unfold push. rewrite map_app. cbn.
  apply NoDup_snoc; [exact Hnd|].
  intros Hx. apply includes_ref in Hx. congruence.
Qed.

Lemma step_members_distinct (op : Op) (c : Ctx) :
  NoDup (map ref (players (this c))) ->
  NoDup (map ref (players (this (step op c)))).
Proof.
  intros H. destruct op as [i|i|h|p|l|i|i| |ps]; cbn [step].
  - rewrite addPlayer_eq.
    destruct (resolves c i) as [np|]; [|exact H].
    destruct (includes (players (this c)) np) eqn:Hin; [exact H|].
    destruct (isPrivate (this c)); cbn [negb snd];
      [|now apply NoDup_refs_push].
    destruct (spaceHostID (this c)) as [hid|]; [|exact H].
    destruct (resolves c hid); cbn [snd].
    + destruct (includes (whitelist (this c)) np || (hid =? i)%string);
        [now apply NoDup_refs_push|exact H].
    + rewrite pushPlayer_players, publicizeSpace_players.
      now apply NoDup_refs_push.
  - rewrite removePlayer_eq. cbn [snd].
    destruct (resolves c i); [|exact H].
    cbn. unfold withoutID. now apply NoDup_map_filter.
  - destruct h as [h|]; [|exact H].
    rewrite updateSpaceHost_some_eq.
    destruct (spaceHostID (this c)); [exact H|]. cbn.
    destruct (resolves c h); [|exact H].
    cbn. constructor; [intros []|constructor].
  - exact H.
  - rewrite updateWhitelist_eq. exact H.
  - rewrite addPlayerToWhiteList_eq.
    destruct (resolves c i) as [np|]; [|exact H].
    destruct (includes (whitelist (this c)) np); exact H.
  - rewrite removePlayerFromWhiteList_eq. cbn [snd].
    destruct (resolves c i); exact H.
  - exact H.
  - exact H.
Qed.

(** X5.  The members never hold the same player object twice: starting
    from a fresh space, after every sequence of calls and town changes the
    heap identities of the members are pairwise different. *)
Theorem members_distinct_after_every_trace :
  forall (coveySpaceID townID : string) (townController : CoveyTownController.t)
         (ops : list Op),
    NoDup (map ref (players
      (this (run ops (constructor coveySpaceID townID townController))))).
Proof.
  intros sid tid t ops.
  assert (G : forall c, NoDup (map ref (players (this c))) ->
                        NoDup (map ref (players (this (run ops c))))).
  { induction ops as [|op ops IH]; intros c H; cbn; [exact H|].
    apply IH. now apply step_members_distinct. }
  apply G. constructor.
Qed.

Lemma step_identifiers (op : Op) (c : Ctx) :
  coveySpaceID (this (step op c)) = coveySpaceID (this c)
  /\ coveyTownController (this (step op c)) = coveyTownController (this c).
Proof.
  destruct op as [i|i|h|p|l|i|i| |ps]; cbn [step].
  - rewrite addPlayer_eq.
    destruct (resolves c i) as [np|]; [|now split].
    destruct (includes (players (this c)) np); [now split|].
    destruct (isPrivate (this c)); cbn [negb snd]; [|now split].
    destruct (spaceHostID (this c)) as [hid|]; [|now split].
    destruct (resolves c hid); cbn [snd]; [|now split].
    destruct (includes (whitelist (this c)) np || (hid =? i)%string); now split.
  - rewrite removePlayer_eq. cbn [snd]. destruct (resolves c i); now split.
  - destruct h as [h|]; [|now split].
    rewrite updateSpaceHost_some_eq.
    destruct (spaceHostID (this c)); now split.
  - now split.
  - rewrite updateWhitelist_eq. now split.
  - rewrite addPlayerToWhiteList_eq.
    destruct (resolves c i) as [np|]; [|now split].
    destruct (includes (whitelist (this c)) np); now split.
  - rewrite removePlayerFromWhiteList_eq. cbn [snd].
    destruct (resolves c i); now split.
  - now split.
  - now split.
Qed.

(** No method reassigns the identifier of the space or the town
    controller it points to: after every sequence of calls both are the
    ones the constructor received. *)
Theorem identifiers_fixed_after_every_trace :
  forall (sid townID : string) (townController : CoveyTownController.t)
         (ops : list Op),
    let s := this (run ops (constructor sid townID townController)) in
    coveySpaceID s = sid /\ coveyTownController s = townID.
Proof.
  intros sid tid t ops. cbv zeta.
  assert (G : forall c,
             coveySpaceID (this (run ops c)) = coveySpaceID (this c)
             /\ coveyTownController (this (run ops c)) = coveyTownController (this c)).
  { induction ops as [|op ops IH]; intros c; [now split|].
    change (run (op :: ops) c) with (run ops (step op c)).
    destruct (IH (step op c)) as [H1 H2]. destruct (step_identifiers op c) as [H3 H4].
    split; congruence. }
  apply (G (constructor sid tid t)).
Qed.

(** X6.  The town controller is written to only by a successful claim:
    every other call leaves it as it is, and a successful claim appends
    one notification for this space and leaves the town's players alone. *)
Theorem town_written_only_by_successful_claim :
  forall (c : Ctx) (i : string) (ids : list string) (p : option string),
    town (snd (addPlayer i c)) = town c
    /\ town (snd (removePlayer i c)) = town c
    /\ town (snd (addPlayerToWhiteList i c)) = town c
    /\ town (snd (removePlayerFromWhiteList i c)) = town c
    /\ town (snd (updateWhitelist ids c)) = town c
    /\ town (snd (updatePresenter p c)) = town c
    /\ town (snd (publicizeSpace c)) = town c
    /\ town (snd (disconnectAllPlayersExceptP i c)) = town c
    /\ town (snd (isPlayerInSpace i c)) = town c
    /\ town (snd (updateSpaceHost None c)) = town c
    /\ (fst (updateSpaceHost (Some i) c) = false ->
        town (snd (updateSpaceHost (Some i) c)) = town c)
    /\ (fst (updateSpaceHost (Some i) c) = true ->
        CoveyTownController.players (town (snd (updateSpaceHost (Some i) c)))
        = CoveyTownController.players (town c)
        /\ CoveyTownController.events (town (snd (updateSpaceHost (Some i) c)))
           = push (CoveyTownController.events (town c))
                  (CoveyTownController.SpaceClaimed (coveySpaceID (this c)))).
Proof.
  intros c i ids p.
  split.
  { rewrite addPlayer_eq.
    destruct (resolves c i) as [np|]; [|reflexivity].
    destruct (includes (players (this c)) np); [reflexivity|].
    destruct (isPrivate (this c)); cbn [negb snd]; [|reflexivity].
    destruct (spaceHostID (this c)) as [hid|]; [|reflexivity].
    destruct (resolves c hid); cbn [snd]; [|reflexivity].
    destruct (includes (whitelist (this c)) np || (hid =? i)%string); reflexivity. }
  split. { rewrite removePlayer_eq. cbn [snd]. now destruct (resolves c i). }
  split.
  { rewrite addPlayerToWhiteList_eq.
    destruct (resolves c i) as [np|]; [|reflexivity].
    destruct (includes (whitelist (this c)) np); reflexivity. }
  split.
  { rewrite removePlayerFromWhiteList_eq. cbn [snd]. now destruct (resolves c i). }
  split. { now rewrite updateWhitelist_eq. }
  split; [reflexivity|]. split; [reflexivity|].
  split.
  { unfold disconnectAllPlayersExceptP, playerFromID. unfold_setters. unfold_monad.
    now destruct (findByID _ i). }
  split; [reflexivity|]. split; [reflexivity|].
  rewrite updateSpaceHost_some_eq.
  destruct (spaceHostID (this c)); cbn; split; intros H;
    try discriminate; try reflexivity.
  now split.
Qed.

Lemma town_written_only_by_successful_claim_witness :
  fst (updateSpaceHost (Some "a") freshCtx) = true
  /\ CoveyTownController.events (town (snd (updateSpaceHost (Some "a") freshCtx)))
     = [CoveyTownController.SpaceClaimed "s1"].
Proof.
  split; [reflexivity|].
  apply (town_written_only_by_successful_claim freshCtx "a" [] None). reflexivity.
Defined.

(** ** The whitelist *)

(** X7.  [addPlayerToWhiteList] returns the whitelist as stored after the
    call, is idempotent, and touches nothing but the whitelist; for an
    identifier that resolves, the player object is on the whitelist
    afterwards, appended at the end unless it was already there. *)
Theorem addPlayerToWhiteList_effect :
  forall (c : Ctx) (newPlayerID : string),
    let r := addPlayerToWhiteList newPlayerID c in
    fst r = whitelist (this (snd r))
    /\ addPlayerToWhiteList newPlayerID (snd r) = r
    /\ players (this (snd r)) = players (this c)
    /\ spaceHostID (this (snd r)) = spaceHostID (this c)
    /\ presenterID (this (snd r)) = presenterID (this c)
    /\ isPrivate (this (snd r)) = isPrivate (this c)
    /\ (forall p, resolves c newPlayerID = Some p ->
          includes (fst r) p = true
          /\ fst r = if includes (whitelist (this c)) p
                     then whitelist (this c)
                     else push (whitelist (this c)) p).
Proof.
  intros c i. cbv zeta. rewrite (addPlayerToWhiteList_eq i c).
  destruct (resolves c i) as [p|] eqn:Hres.
  - destruct (includes (whitelist (this c)) p) eqn:Hin; cbn [fst snd].
    + rewrite addPlayerToWhiteList_eq, Hres, Hin.
      do 6 (split; [reflexivity|]).
      intros p0 Hp0. injection Hp0 as <-. rewrite Hin. now split.
    + rewrite addPlayerToWhiteList_eq.
      change (resolves (snd (set_whitelist (push (whitelist (this c)) p) c)) i)
        with (resolves c i).
      rewrite Hres. cbn. rewrite includes_push.
      do 6 (split; [reflexivity|]).
      intros p0 Hp0. injection Hp0 as <-. rewrite Hin, includes_push. now split.
  - cbn [fst snd]. rewrite addPlayerToWhiteList_eq, Hres.
    do 6 (split; [reflexivity|]). discriminate.
Qed.

Lemma addPlayerToWhiteList_effect_witness :
  resolves aliceHosts "b" = Some bob
  /\ includes (fst (addPlayerToWhiteList "b" aliceHosts)) bob = true.
Proof.
  split; [reflexivity|].
  apply (addPlayerToWhiteList_effect aliceHosts "b"). reflexivity.
Defined.

(** X8.  [removePlayerFromWhiteList] touches nothing but the whitelist.
    For an identifier that resolves in the town, the whitelist becomes the
    old one without the entries of that identifier, the others in their
    order; for one that does not resolve the call changes nothing, also
    when an entry carries it. *)
Theorem removePlayerFromWhiteList_effect :
  forall (c : Ctx) (playerID : string),
    let c' := snd (removePlayerFromWhiteList playerID c) in
    players (this c') = players (this c)
    /\ spaceHostID (this c') = spaceHostID (this c)
    /\ presenterID (this c') = presenterID (this c)
    /\ isPrivate (this c') = isPrivate (this c)
    /\ town c' = town c
    /\ whitelist (this c') = match resolves c playerID with
                             | Some _ => withoutID (whitelist (this c)) playerID
                             | None => whitelist (this c)
                             end
    /\ (resolves c playerID <> None ->
        forall q, In q (whitelist (this c'))
                  <-> In q (whitelist (this c)) /\ id q <> playerID)
    /\ (resolves c playerID = None -> c' = c).
Proof.
  intros c i. cbv zeta. rewrite removePlayerFromWhiteList_eq. cbn [snd].
  destruct (resolves c i) as [p|] eqn:E; cbn;
    (do 6 (split; [reflexivity|])); split.
  - intros _ q. apply withoutID_In.
  - discriminate.
  - intros H. now contradiction H.
  - reflexivity.
Qed.

Lemma removePlayerFromWhiteList_effect_witness :
  whitelist (this bobListedTwice) = [bob; carol; bob]
  /\ resolves bobListedTwice "b" <> None
  /\ whitelist (this (snd (removePlayerFromWhiteList "b" bobListedTwice))) = [carol]
  /\ forall q,
       In q (whitelist (this (snd (removePlayerFromWhiteList "b" bobListedTwice))))
       <-> In q (whitelist (this bobListedTwice)) /\ id q <> "b".
Proof.
  destruct (removePlayerFromWhiteList_effect bobListedTwice "b")
    as (_ & _ & _ & _ & _ & Harr & Hin & _).
  split; [reflexivity|]. split; [discriminate|].
  split; [exact Harr|]. apply Hin. discriminate.
Defined.

(** X9.  Adding a player to the whitelist and removing the same
    identifier again gives back the state before, provided no entry of the
    whitelist carried that identifier. *)
Theorem whitelist_add_then_remove :
  forall (c : Ctx) (playerID : string),
    (forall q, In q (whitelist (this c)) -> id q <> playerID) ->
    snd (removePlayerFromWhiteList playerID
           (snd (addPlayerToWhiteList playerID c))) = c.
Proof.
  intros c i Habs. rewrite addPlayerToWhiteList_eq.
  destruct (resolves c i) as [p|] eqn:Hres.
  - assert (Hid : id p = i) by (now apply findByID_id in Hres).
    destruct (includes (whitelist (this c)) p); cbn [snd].
    + rewrite removePlayerFromWhiteList_eq, Hres. cbn.
      rewrite (withoutID_absent _ _ Habs). apply ctx_eta.
    + rewrite removePlayerFromWhiteList_eq.
      change (resolves (snd (set_whitelist (push (whitelist (this c)) p) c)) i)
        with (resolves c i).
      rewrite Hres. cbn. unfold push. rewrite withoutID_app.
      rewrite (withoutID_absent _ _ Habs).
      unfold withoutID at 1. cbn. rewrite Hid, String.eqb_refl. cbn.
      rewrite app_nil_r. apply ctx_eta.
  - cbn [snd]. now rewrite removePlayerFromWhiteList_eq, Hres.
Qed.

Lemma whitelist_add_then_remove_witness :
  (forall q, In q (whitelist (this aliceHosts)) -> id q <> "b")
  /\ snd (removePlayerFromWhiteList "b" (snd (addPlayerToWhiteList "b" aliceHosts)))
     = aliceHosts.
Proof.
  assert (H : forall q, In q (whitelist (this aliceHosts)) -> id q <> "b")
    by (intros q []).
  split; [exact H|].
  apply (whitelist_add_then_remove aliceHosts "b" H).
Defined.

(** X10.  Whitelisting opens the door: in a state where flag and host
    agree, once [addPlayerToWhiteList] has run for an identifier that
    resolves, [addPlayer] with that identifier succeeds. *)
Theorem whitelisted_player_is_admitted :
  forall (c : Ctx) (playerID : string) (p : Player),
    flag_matches_host (this c) ->
    resolves c playerID = Some p ->
    fst (addPlayer playerID (snd (addPlayerToWhiteList playerID c))) = true.
Proof.
  intros c i p Hflag Hres.
  assert (G : forall c0, resolves c0 i = Some p -> flag_matches_host (this c0) ->
                         includes (whitelist (this c0)) p = true ->
                         fst (addPlayer i c0) = true).
  { intros c0 H0 Hf Hw. rewrite addPlayer_eq, H0.
    destruct (includes (players (this c0)) p); [reflexivity|].
    destruct (isPrivate (this c0)) eqn:Hp; cbn [negb]; [|reflexivity].
    destruct (spaceHostID (this c0)) as [h|] eqn:Hh.
    - destruct (resolves c0 h); [|reflexivity]. now rewrite Hw.
    - exfalso. unfold flag_matches_host in Hf. rewrite Hp, Hh in Hf.
      now apply Hf. }
  rewrite addPlayerToWhiteList_eq, Hres.
  destruct (includes (whitelist (this c)) p) eqn:Hin; cbn [snd].
  - now apply G.
  - apply G; [exact Hres|exact Hflag|]. cbn. apply includes_push.
Qed.

Lemma whitelisted_player_is_admitted_witness :
  flag_matches_host (this aliceHosts)
  /\ resolves aliceHosts "b" = Some bob
  /\ fst (addPlayer "b" aliceHosts) = false
  /\ fst (addPlayer "b" (snd (addPlayerToWhiteList "b" aliceHosts))) = true.
Proof.
  assert (H : flag_matches_host (this aliceHosts))
    by (split; [discriminate|reflexivity]).
  split; [exact H|]. split; [reflexivity|]. split; [reflexivity|].
  apply (whitelisted_player_is_admitted aliceHosts "b" bob H). reflexivity.
Defined.

(** X11.  The same through [updateWhitelist]: in a state where flag and
    host agree, every identifier of the new whitelist that resolves is
    admitted by [addPlayer] afterwards. *)
Theorem updateWhitelist_admits_listed_players :
  forall (c : Ctx) (ids : list string) (playerID : string) (p : Player),
    flag_matches_host (this c) ->
    In playerID ids ->
    resolves c playerID = Some p ->
    fst (addPlayer playerID (snd (updateWhitelist ids c))) = true.
Proof.
  intros c ids i p Hflag Hi Hres.
  rewrite updateWhitelist_eq. cbn [snd]. rewrite addPlayer_eq.
  unfold resolves in *. cbn. rewrite Hres.
  destruct (includes (players (this c)) p); [reflexivity|].
  destruct (isPrivate (this c)) eqn:Hp; cbn [negb]; [|reflexivity].
  destruct (spaceHostID (this c)) as [h|] eqn:Hh.
  - destruct (findByID _ h); [|reflexivity].
    rewrite (In_includes _ p); [reflexivity|].
    apply resolveAll_In. now exists i.
  - exfalso. unfold flag_matches_host in Hflag. rewrite Hp, Hh in Hflag.
    now apply Hflag.
Qed.

Lemma updateWhitelist_admits_listed_players_witness :
  flag_matches_host (this aliceHosts)
  /\ In "c" ["b"; "c"]
  /\ resolves aliceHosts "c" = Some carol
  /\ fst (addPlayer "c" (snd (updateWhitelist ["b"; "c"] aliceHosts))) = true.
Proof.
  assert (H : flag_matches_host (this aliceHosts))
    by (split; [discriminate|reflexivity]).
  assert (Hi : In "c" ["b"; "c"]) by (right; left; reflexivity).
  split; [exact H|]. split; [exact Hi|]. split; [reflexivity|].
  apply (updateWhitelist_admits_listed_players aliceHosts ["b"; "c"] "c" carol H Hi).
  reflexivity.
Defined.

(** X12.  Reading the identifiers back: after [updateWhitelist] the
    identifiers of the whitelist entries are the input identifiers that
    resolve, in the order and with the repetitions of the input. *)
Theorem updateWhitelist_ids_round_trip :
  forall (c : Ctx) (ids : list string),
    map id (whitelist (this (snd (updateWhitelist ids c))))
    = filter (fun i => match resolves c i with Some _ => true | None => false end) ids.
Proof.
  intros c ids. rewrite updateWhitelist_read. unfold resolves.
  induction ids as [|i ids IH]; [reflexivity|].
  rewrite resolveAll_cons. cbn [filter].
  destruct (findByID _ i) as [p|] eqn:E; [|exact IH].
  cbn. rewrite IH. apply findByID_id in E. now rewrite E.
Qed.

(** X13.  [updateWhitelist] replaces wholesale: nothing of an earlier
    whitelist survives, whatever the earlier calls on the whitelist were,
    and the other fields and the town are left alone. *)
Theorem updateWhitelist_last_write_wins :
  forall (c : Ctx) (ids ids' : list string) (i : string),
    snd (updateWhitelist ids (snd (updateWhitelist ids' c)))
    = snd (updateWhitelist ids c)
    /\ snd (updateWhitelist ids (snd (addPlayerToWhiteList i c)))
       = snd (updateWhitelist ids c)
    /\ snd (updateWhitelist ids (snd (removePlayerFromWhiteList i c)))
       = snd (updateWhitelist ids c)
    /\ whitelist (this (snd (updateWhitelist [] c))) = [].
Proof.
  intros c ids ids' i. rewrite !updateWhitelist_eq. cbn [snd this town].
  split; [reflexivity|]. split; [|split; [|reflexivity]].
  - rewrite addPlayerToWhiteList_eq.
    destruct (resolves c i) as [p|]; [|reflexivity].
    destruct (includes (whitelist (this c)) p); reflexivity.
  - rewrite removePlayerFromWhiteList_eq. cbn [snd].
    destruct (resolves c i); reflexivity.
Qed.

Lemma updateWhitelist_members_witness :
  (forall i, In i ["a"; "b"] <-> In i ["b"; "a"; "b"])
  /\ forall q,
       In q (whitelist (this (snd (updateWhitelist ["a"; "b"] freshCtx))))
       <-> In q (whitelist (this (snd (updateWhitelist ["b"; "a"; "b"] freshCtx)))).
Proof.
  assert (H : forall i, In i ["a"; "b"] <-> In i ["b"; "a"; "b"])
    by (intros i; cbn; tauto).
  split; [exact H|].
  apply (updateWhitelist_members ["a"; "b"] ["b"; "a"; "b"] freshCtx H).
Defined.

Lemma updateWhitelist_NoDup_witness :
  NoDup ["a"; "zed"; "b"]
  /\ NoDup (whitelist (this (snd (updateWhitelist ["a"; "zed"; "b"] freshCtx)))).
Proof.
  assert (H : NoDup ["a"; "zed"; "b"]).
  { repeat constructor; cbn; intuition discriminate. }
  split; [exact H|].
  apply (updateWhitelist_NoDup ["a"; "zed"; "b"] freshCtx H).
Defined.

(** ** Looking a member up, adding and removing *)

Lemma findByID_None (arr : list Player) (playerID : string) :
  findByID arr playerID = None <-> forall q, In q arr -> id q <> playerID.
Proof.
  unfold findByID. split.
  - intros H q Hq E. apply (find_none _ _ H) in Hq.
    apply String.eqb_neq in Hq. contradiction.
  - intros H. induction arr as [|x arr IH]; [reflexivity|]. cbn.
    destruct (String.eqb_spec (id x) playerID) as [E|E].
    + exfalso. apply (H x); [now left|exact E].
    + apply IH. intros q Hq. apply H. now right.
Qed.

Lemma isPlayerInSpace_member (c : Ctx) (playerID : string) (q : Player) :
  In q (players (this c)) -> id q = playerID ->
  fst (isPlayerInSpace playerID c) = true.
Proof.
  intros Hq Hi. unfold isPlayerInSpace. unfold_monad. cbn.
  destruct (findByID (players (this c)) playerID) eqn:E; [reflexivity|].
  exfalso. now apply (proj1 (findByID_None _ _) E q).
Qed.

(** X14.  [isPlayerInSpace] only reads: it changes nothing, and it returns
    true exactly when some member carries the identifier. *)
Theorem isPlayerInSpace_spec :
  forall (c : Ctx) (playerID : string),
    snd (isPlayerInSpace playerID c) = c
    /\ (fst (isPlayerInSpace playerID c) = true
        <-> exists q, In q (players (this c)) /\ id q = playerID).
Proof.
  intros c i. split; [reflexivity|].
  unfold isPlayerInSpace. unfold_monad. cbn.
  destruct (findByID (players (this c)) i) as [q|] eqn:E.
  - split; [|reflexivity]. intros _. exists q. split.
    + now apply findByID_In in E.
    + now apply findByID_id in E.
  - split; [discriminate|]. intros [q [Hq Hi]].
    exfalso. now apply (proj1 (findByID_None _ _) E q).
Qed.

(** X15.  After [removePlayer] with an identifier that resolves in the
    town, [isPlayerInSpace] answers false for it; after an [addPlayer]
    that appended the player, it answers true. *)
Theorem isPlayerInSpace_after_remove_and_add :
  forall (c : Ctx) (playerID : string) (p : Player),
    resolves c playerID = Some p ->
    fst (isPlayerInSpace playerID (snd (removePlayer playerID c))) = false
    /\ (includes (players (this c)) p = false ->
        fst (addPlayer playerID c) = true ->
        fst (isPlayerInSpace playerID (snd (addPlayer playerID c))) = true).
Proof.
  intros c i p Hres. split.
  - rewrite removePlayer_eq, Hres. cbn [snd].
    unfold isPlayerInSpace. unfold_setters. unfold_monad. cbn.
    replace (findByID (withoutID (players (this c)) i) i) with (@None Player);
      [reflexivity|].
    symmetry. apply findByID_None. intros q Hq. now apply withoutID_In in Hq.
  - intros Hin Hok.
    assert (Hmem : In p (players (this (snd (addPlayer i c))))).
    { revert Hok. rewrite addPlayer_eq, Hres, Hin.
      destruct (isPrivate (this c)); cbn [negb].
      2:{ intros _. cbn. unfold push. apply in_or_app. right. now left. }
      destruct (spaceHostID (this c)) as [h|]; [|discriminate].
      destruct (resolves c h).
      2:{ intros _. cbn. unfold push. apply in_or_app. right. now left. }
      destruct (includes (whitelist (this c)) p || (h =? i)%string);
        [|discriminate].
      intros _. cbn. unfold push. apply in_or_app. right. now left. }
    apply isPlayerInSpace_member with (q := p); [exact Hmem|].
    now apply findByID_id in Hres.
Qed.

Lemma isPlayerInSpace_after_remove_and_add_witness :
  (resolves bobInside "b" = Some bob
   /\ fst (isPlayerInSpace "b" bobInside) = true
   /\ fst (isPlayerInSpace "b" (snd (removePlayer "b" bobInside))) = false)
  /\ (resolves freshCtx "b" = Some bob
      /\ includes (players (this freshCtx)) bob = false
      /\ fst (isPlayerInSpace "b" freshCtx) = false
      /\ fst (addPlayer "b" freshCtx) = true
      /\ fst (isPlayerInSpace "b" (snd (addPlayer "b" freshCtx))) = true).
Proof.
  split.
  - split; [reflexivity|]. split; [reflexivity|].
    apply (isPlayerInSpace_after_remove_and_add bobInside "b" bob). reflexivity.
  - do 4 (split; [reflexivity|]).
    apply (proj2 (isPlayerInSpace_after_remove_and_add freshCtx "b" bob eq_refl));
      reflexivity.
Defined.

(** X16.  Adding a player and removing the same identifier again gives
    back the members as they were, provided no member carried that
    identifier; in a space whose flag is off the whole state is back. *)
Theorem addPlayer_then_removePlayer :
  forall (c : Ctx) (playerID : string),
    (forall q, In q (players (this c)) -> id q <> playerID) ->
    players (this (snd (removePlayer playerID (snd (addPlayer playerID c)))))
    = players (this c)
    /\ (isPrivate (this c) = false ->
        snd (removePlayer playerID (snd (addPlayer playerID c))) = c).
Proof.
  intros c i Habs.
  assert (Hsame : snd (removePlayer i c) = c).
  { rewrite removePlayer_eq. cbn [snd].
    destruct (resolves c i); [|reflexivity].
    cbn. rewrite (withoutID_absent _ _ Habs). apply ctx_eta. }
  assert (Hpush : forall c0 p, resolves c0 i = Some p ->
            players (this c0) = players (this c) ->
            players (this (snd (removePlayer i (snd (pushPlayer p c0)))))
            = players (this c)).
  { intros c0 p H0 Hps. rewrite removePlayer_eq.
    change (resolves (snd (pushPlayer p c0)) i) with (resolves c0 i).
    rewrite H0. cbn. rewrite Hps. unfold push. rewrite withoutID_app.
    rewrite (withoutID_absent _ _ Habs). unfold withoutID. cbn.
    apply findByID_id in H0. rewrite H0, String.eqb_refl. cbn.
    apply app_nil_r. }
  rewrite addPlayer_eq.
  destruct (resolves c i) as [p|] eqn:Hres; cbn [snd].
  2:{ rewrite Hsame. now split. }
  destruct (includes (players (this c)) p); cbn [snd].
  { rewrite Hsame. now split. }
  destruct (isPrivate (this c)) eqn:Hp; cbn [negb snd].
  - split; [|discriminate].
    destruct (spaceHostID (this c)) as [h|]; cbn [snd];
      [|now rewrite Hsame].
    destruct (resolves c h) eqn:Hh; cbn [snd].
    + destruct (includes (whitelist (this c)) p || (h =? i)%string); cbn [snd];
        [now apply Hpush|now rewrite Hsame].
    + now apply Hpush.
  - split; [now apply Hpush|]. intros _.
    rewrite removePlayer_eq.
    change (resolves (snd (pushPlayer p c)) i) with (resolves c i).
    rewrite Hres. cbn. unfold push. rewrite withoutID_app.
    rewrite (withoutID_absent _ _ Habs). unfold withoutID. cbn.
    apply findByID_id in Hres. rewrite Hres, String.eqb_refl. cbn.
    rewrite app_nil_r. apply ctx_eta.
Qed.

Lemma addPlayer_then_removePlayer_witness :
  (forall q, In q (players (this freshCtx)) -> id q <> "b")
  /\ snd (removePlayer "b" (snd (addPlayer "b" freshCtx))) = freshCtx.
Proof.
  assert (H : forall q, In q (players (this freshCtx)) -> id q <> "b")
    by (intros q []).
  split; [exact H|].
  apply (addPlayer_then_removePlayer freshCtx "b" H). reflexivity.
Defined.

(** * Further properties of the request handlers *)

Lemma store_same {V : Type} (key : string) (v : V) (table : list (string * V)) :
  lookup key table = Some v -> store key v table = table.
Proof.
  induction table as [|[k v0] rest IH]; cbn; [reflexivity|].
  destruct (String.eqb k key); [congruence|].
  intros H. now rewrite IH.
Qed.

Lemma store_missing {V : Type} (key : string) (v : V) (table : list (string * V)) :
  lookup key table = None -> store key v table = table.
Proof.
  induction table as [|[k v0] rest IH]; cbn; [reflexivity|].
  destruct (String.eqb k key); [discriminate|].
  intros H. now rewrite IH.
Qed.

Lemma store_townOf (w : World) (s : CoveySpaceController) :
  store (coveyTownController s) (townOf w s) (townsStore w) = townsStore w.
Proof.
  unfold townOf, getControllerForTown.
  destruct (lookup (coveyTownController s) (townsStore w)) eqn:E.
  - now apply store_same.
  - now apply store_missing.
Qed.

Lemma length_zero_empty (s : string) : String.length s = 0 <-> s = "".
Proof. destruct s; cbn; split; congruence. Qed.

(** What the claim handler does once it has found the controller. *)
Lemma spaceClaimHandler_found (requestData : SpaceClaimRequest.t) (w : World)
  (s : CoveySpaceController) :
  getControllerForSpace w (SpaceClaimRequest.coveySpaceID requestData) = Some s ->
  let c := snd (updateSpaceHost (Some (SpaceClaimRequest.newHostPlayerID requestData))
                  {| this := s; town := townOf w s |}) in
  spaceClaimHandler requestData w =
  ({| isOK := true;
      message := Some ("The host was update to be player with ID "
                       ++ SpaceClaimRequest.newHostPlayerID requestData)%string;
      response := None |},
   {| townsStore := store (coveyTownController s) (town c) (townsStore w);
      spacesStore := store (SpaceClaimRequest.coveySpaceID requestData) (this c)
                       (spacesStore w) |}).
Proof.
  intros H. cbv zeta. unfold spaceClaimHandler, invoke. rewrite H.
  now destruct (updateSpaceHost _ _).
Qed.

(** X17.  The claim handler answers [isOK: true] exactly when the space is
    in the store; for a space that is not, it answers "Error: No such
    space" and leaves both stores as they are. *)
Theorem spaceClaimHandler_isOK_iff_space_exists :
  forall (requestData : SpaceClaimRequest.t) (w : World),
    (isOK (fst (spaceClaimHandler requestData w)) = true
     <-> getControllerForSpace w (SpaceClaimRequest.coveySpaceID requestData) <> None)
    /\ (getControllerForSpace w (SpaceClaimRequest.coveySpaceID requestData) = None ->
        spaceClaimHandler requestData w = (failure "Error: No such space", w)).
Proof.
  intros r w.
  destruct (getControllerForSpace w (SpaceClaimRequest.coveySpaceID r)) as [s|] eqn:E.
  - rewrite (spaceClaimHandler_found r w s E). cbn.
    split; [|discriminate]. split; [discriminate|reflexivity].
  - unfold spaceClaimHandler. rewrite E. cbn.
    split; [|reflexivity]. split; [discriminate|congruence].
Qed.

Lemma spaceClaimHandler_isOK_iff_space_exists_witness :
  getControllerForSpace sampleWorld "nowhere" = None
  /\ spaceClaimHandler
       {| SpaceClaimRequest.coveyTownID := "t1";
          SpaceClaimRequest.coveySpaceID := "nowhere";
          SpaceClaimRequest.newHostPlayerID := "a" |} sampleWorld
     = (failure "Error: No such space", sampleWorld).
Proof.
  split; [reflexivity|].
  apply (spaceClaimHandler_isOK_iff_space_exists
           {| SpaceClaimRequest.coveyTownID := "t1";
              SpaceClaimRequest.coveySpaceID := "nowhere";
              SpaceClaimRequest.newHostPlayerID := "a" |} sampleWorld).
  reflexivity.
Defined.

(** X18.  A claim on a space that has a host changes neither store: the
    first claimant stays host, whoever asks next. *)
Theorem spaceClaimHandler_hosted_space_unchanged :
  forall (requestData : SpaceClaimRequest.t) (w : World)
         (s : CoveySpaceController) (hostID : string),
    getControllerForSpace w (SpaceClaimRequest.coveySpaceID requestData) = Some s ->
    spaceHostID s = Some hostID ->
    snd (spaceClaimHandler requestData w) = w.
Proof.
  intros r w s h Hs Hh. rewrite (spaceClaimHandler_found r w s Hs).
  rewrite updateSpaceHost_some_eq. cbn [this snd]. rewrite Hh. cbn [snd this town].
  rewrite store_townOf. unfold getControllerForSpace in Hs.
  rewrite (store_same _ _ _ Hs). now destruct w.
Qed.

Lemma spaceClaimHandler_hosted_space_unchanged_witness :
  getControllerForSpace aliceHostsWorld "s1"
  = Some (this (snd (updateSpaceHost (Some "a")
                       {| this := newSpace "s1" "t1"; town := sampleTown |})))
  /\ snd (spaceClaimHandler claimByBob aliceHostsWorld) = aliceHostsWorld.
Proof.
  split; [reflexivity|].
  apply (spaceClaimHandler_hosted_space_unchanged claimByBob aliceHostsWorld
           (this (snd (updateSpaceHost (Some "a")
                         {| this := newSpace "s1" "t1"; town := sampleTown |})))
           "a"); reflexivity.
Defined.

(** X19.  A claim on a stored space without host, whose town controller
    is in the towns store, takes effect in the stores: looked up again,
    the controller has the claimant as host and its flag set, presenter
    and whitelist as before, and as members the claimant alone when the
    identifier resolves in that town (the old members when it does not);
    the town controller has received the notification. *)
Theorem spaceClaimHandler_public_space_claimed :
  forall (requestData : SpaceClaimRequest.t) (w : World) (s : CoveySpaceController)
         (t : CoveyTownController.t),
    getControllerForSpace w (SpaceClaimRequest.coveySpaceID requestData) = Some s ->
    spaceHostID s = None ->
    getControllerForTown w (coveyTownController s) = Some t ->
    let newHostID := SpaceClaimRequest.newHostPlayerID requestData in
    let w' := snd (spaceClaimHandler requestData w) in
    (exists s',
        getControllerForSpace w' (SpaceClaimRequest.coveySpaceID requestData) = Some s'
        /\ spaceHostID s' = Some newHostID
        /\ isPrivate s' = true
        /\ presenterID s' = presenterID s
        /\ whitelist s' = whitelist s
        /\ players s' = match findByID (CoveyTownController.players t) newHostID with
                        | Some p => [p]
                        | None => players s
                        end)
    /\ getControllerForTown w' (coveyTownController s)
       = Some (CoveyTownController.claimSpace (coveySpaceID s) t).
Proof.
  intros r w s t Hs Hh Ht. cbv zeta. rewrite (spaceClaimHandler_found r w s Hs).
  rewrite updateSpaceHost_some_eq. cbn [this snd]. rewrite Hh. cbn [snd this town].
  unfold resolves. cbn [town]. unfold townOf. rewrite Ht.
  split.
  - eexists. split.
    + unfold getControllerForSpace in *. cbn [spacesStore].
      apply lookup_store with (v := s). exact Hs.
    + cbn. repeat split; reflexivity.
  - unfold getControllerForTown in *.
    cbn [townsStore]. now apply lookup_store with (v := t).
Qed.

Lemma spaceClaimHandler_public_space_claimed_witness :
  getControllerForSpace
    (snd (invoke "s1" (newSpace "s1" "t1") (addPlayer "b") sampleWorld)) "s1"
  = Some (this bobInside)
  /\ spaceHostID (this bobInside) = None
  /\ players (this bobInside) = [bob]
  /\ getControllerForTown
       (snd (invoke "s1" (newSpace "s1" "t1") (addPlayer "b") sampleWorld))
       (coveyTownController (this bobInside)) = Some sampleTown
  /\ (exists s',
        getControllerForSpace
          (snd (spaceClaimHandler claimByAlice
                  (snd (invoke "s1" (newSpace "s1" "t1") (addPlayer "b")
                          sampleWorld)))) "s1" = Some s'
        /\ spaceHostID s' = Some "a"
        /\ players s' = [alice])
  /\ getControllerForTown
       (snd (spaceClaimHandler claimByAlice
               (snd (invoke "s1" (newSpace "s1" "t1") (addPlayer "b")
                       sampleWorld)))) "t1"
     = Some (CoveyTownController.claimSpace "s1" sampleTown).
Proof.
  do 4 (split; [reflexivity|]).
  destruct (spaceClaimHandler_public_space_claimed claimByAlice
              (snd (invoke "s1" (newSpace "s1" "t1") (addPlayer "b") sampleWorld))
              (this bobInside) sampleTown eq_refl eq_refl eq_refl)
    as [[s' (H1 & H2 & _ & _ & _ & H6)] Ht].
  split; [|exact Ht].
  exists s'. split; [exact H1|]. split; [exact H2|exact H6].
Defined.

(** X20.  The create handler rejects the empty identifier before it
    reaches the store: it answers "Space ID must be specified" and the
    stores are untouched; for every other identifier it calls [createSpace]
    once with that identifier and answers [isOK: true]. *)
Theorem spaceCreateHandler_spec :
  forall (createSpace : string -> World -> World)
         (requestData : SpaceCreateRequest.t) (w : World),
    let spaceID := SpaceCreateRequest.coveySpaceID requestData in
    (spaceID = "" ->
     spaceCreateHandler createSpace requestData w
     = (failure "Space ID must be specified", w))
    /\ (spaceID <> "" ->
        spaceCreateHandler createSpace requestData w
        = ({| isOK := true;
              message := Some ("Private Space " ++ spaceID ++ " was created")%string;
              response := None |},
           createSpace spaceID w))
    /\ (isOK (fst (spaceCreateHandler createSpace requestData w)) = true
        <-> spaceID <> "").
Proof.
  intros createSpace r w. cbv zeta. unfold spaceCreateHandler.
  destruct (Nat.eqb_spec (String.length (SpaceCreateRequest.coveySpaceID r)) 0)
    as [E|E].
  - apply length_zero_empty in E. cbn.
    split; [reflexivity|]. split; [congruence|].
    split; [discriminate|congruence].
  - assert (E' : SpaceCreateRequest.coveySpaceID r <> "").
    { intros H. apply E. now apply length_zero_empty. }
    cbn. split; [congruence|]. split; [reflexivity|]. now split.
Qed.

Lemma spaceCreateHandler_spec_witness :
  spaceCreateHandler (fun _ w => w)
    {| SpaceCreateRequest.coveyTownID := "t1";
       SpaceCreateRequest.coveySpaceID := "" |} sampleWorld
  = (failure "Space ID must be specified", sampleWorld).
Proof.
  apply (spaceCreateHandler_spec (fun _ w => w)
           {| SpaceCreateRequest.coveyTownID := "t1";
              SpaceCreateRequest.coveySpaceID := "" |} sampleWorld).
  reflexivity.
Defined.

Lemma spaceJoinHandler_onTown
  (joinSpace : string -> string -> CoveyTownController.t -> CoveyTownController.t)
  (requestData : SpaceJoinRequest.t) (w : World) :
  spaceJoinHandler joinSpace requestData w
  = WholeWorld.spaceJoinHandler (WholeWorld.onTown joinSpace) requestData w.
Proof.
  unfold spaceJoinHandler, WholeWorld.spaceJoinHandler, WholeWorld.onTown.
  now destruct (getControllerForTown w (SpaceJoinRequest.coveyTownID requestData)).
Qed.

(** X21.  The join handler, whatever [joinSpace] does to the two stores.
    For a town that is not in the towns store it answers "Error: No such
    town" without calling [joinSpace]: the stores are untouched.  For a
    town that is, it calls [joinSpace] once, on that town, with the
    player and the space of the request, and the world it returns is the
    one that call left.  It then answers [isOK: true] exactly when the
    space is in the store after the call, and the response carries the
    members, the host and the presenter that the controller has after
    the call, and no message. *)
Theorem spaceJoinHandler_spec :
  forall (joinSpace : string -> string -> string -> World -> World)
         (requestData : SpaceJoinRequest.t) (w : World),
    let townID := SpaceJoinRequest.coveyTownID requestData in
    let spaceID := SpaceJoinRequest.coveySpaceID requestData in
    let joined := joinSpace townID (SpaceJoinRequest.playerID requestData) spaceID w in
    (getControllerForTown w townID = None ->
     WholeWorld.spaceJoinHandler joinSpace requestData w
     = (failure "Error: No such town", w))
    /\ (getControllerForTown w townID <> None ->
        snd (WholeWorld.spaceJoinHandler joinSpace requestData w) = joined
        /\ (getControllerForSpace joined spaceID = None ->
            fst (WholeWorld.spaceJoinHandler joinSpace requestData w)
            = failure "Error: No such space")
        /\ (forall s,
              getControllerForSpace joined spaceID = Some s ->
              fst (WholeWorld.spaceJoinHandler joinSpace requestData w)
              = {| isOK := true;
                   message := None;
                   response := Some {| currentPlayers := players s;
                                       currentHostID := spaceHostID s;
                                       currentPresenterID := presenterID s |} |}))
    /\ (isOK (fst (WholeWorld.spaceJoinHandler joinSpace requestData w)) = true
        <-> getControllerForTown w townID <> None
            /\ getControllerForSpace joined spaceID <> None).
Proof.
  intros joinSpace r w. cbv zeta. unfold WholeWorld.spaceJoinHandler.
  destruct (getControllerForTown w (SpaceJoinRequest.coveyTownID r)) as [t|] eqn:Et.
  - destruct (getControllerForSpace _ (SpaceJoinRequest.coveySpaceID r))
      as [s|] eqn:Es; cbn [fst snd isOK].
    + split; [discriminate|]. split.
      * intros _. split; [reflexivity|]. split; [discriminate|].
        intros s0 H. injection H as <-. reflexivity.
      * split; [intros _; split; discriminate|reflexivity].
    + split; [discriminate|]. split.
      * intros _. split; [reflexivity|]. split; [reflexivity|discriminate].
      * cbn. split; [discriminate|]. intros [_ H]. now contradiction H.
  - cbn. split; [reflexivity|]. split.
    + intros H. now contradiction H.
    + split; [discriminate|]. intros [H _]. now contradiction H.
Qed.

Lemma spaceJoinHandler_spec_witness :
  getControllerForTown sampleWorld "t1" <> None
  /\ getControllerForSpace sampleWorld "s1" = Some (newSpace "s1" "t1")
  /\ players (newSpace "s1" "t1") = []
  /\ getControllerForSpace (joinSpace_admitting "t1" "b" "s1" sampleWorld) "s1"
     = Some (this bobInside)
  /\ fst (WholeWorld.spaceJoinHandler joinSpace_admitting joinS1 sampleWorld)
     = {| isOK := true;
          message := None;
          response := Some {| currentPlayers := [bob];
                              currentHostID := None;
                              currentPresenterID := None |} |}.
Proof.
  assert (Ht : getControllerForTown sampleWorld "t1" <> None) by discriminate.
  split; [exact Ht|]. do 3 (split; [reflexivity|]).
  destruct (spaceJoinHandler_spec joinSpace_admitting joinS1 sampleWorld)
    as (_ & Hjoin & _).
  destruct (Hjoin Ht) as (_ & _ & Hok).
  apply (Hok (this bobInside)). reflexivity.
Defined.

(** * Properties of the whitelist editor *)

Lemma same_object_sym (p q : Player) : same_object p q = same_object q p.
Proof. apply Nat.eqb_sym. Qed.

Lemma includes_cons (x : Player) (arr : list Player) (p : Player) :
  includes (x :: arr) p = same_object p x || includes arr p.
Proof. reflexivity. Qed.

Lemma includes_same_object (arr : list Player) (p q : Player) :
  same_object p q = true -> includes arr p = includes arr q.
Proof.
  intros H. apply Nat.eqb_eq in H.
  induction arr as [|x arr IH]; [reflexivity|].
  rewrite !includes_cons, IH. unfold same_object. now rewrite H.
Qed.

Lemma indexOf_range (arr : list Player) (value : Player) :
  (-1 <= TransferList.indexOf arr value < Z.of_nat (length arr))%Z.
Proof.
  induction arr as [|x arr IH]; cbn [TransferList.indexOf length]; [lia|].
  destruct (same_object x value); [lia|].
  destruct (Z.eqb_spec (TransferList.indexOf arr value) (-1)); lia.
Qed.

Lemma indexOf_absent (arr : list Player) (value : Player) :
  (TransferList.indexOf arr value =? -1)%Z = negb (includes arr value).
Proof.
  induction arr as [|x arr IH]; [reflexivity|].
  rewrite includes_cons, (same_object_sym value x). cbn [TransferList.indexOf].
  destruct (same_object x value); [reflexivity|]. cbn [orb].
  rewrite <- IH.
  destruct (Z.eqb_spec (TransferList.indexOf arr value) (-1)) as [E|E];
    [reflexivity|].
  pose proof (indexOf_range arr value). apply Z.eqb_neq. lia.
Qed.

Lemma not_eq (a b : list Player) :
  TransferList.not a b = filter (fun v => negb (includes b v)) a.
Proof.
  unfold TransferList.not. apply filter_ext. intros v. apply indexOf_absent.
Qed.

Lemma intersection_eq (a b : list Player) :
  TransferList.intersection a b = filter (fun v => includes b v) a.
Proof.
  unfold TransferList.intersection. apply filter_ext. intros v.
  now rewrite indexOf_absent, negb_involutive.
Qed.

Lemma includes_filter (f : Player -> bool) (arr : list Player) (p : Player) :
  (forall a b, same_object a b = true -> f a = f b) ->
  includes (filter f arr) p = includes arr p && f p.
Proof.
  intros Hf. induction arr as [|x arr IH]; [reflexivity|].
  cbn [filter]. rewrite includes_cons.
  destruct (same_object p x) eqn:E.
  - assert (Hp : f p = f x) by (now apply Hf).
    rewrite Hp in *. destruct (f x); cbn [orb andb].
    + now rewrite includes_cons, E.
    + rewrite IH. now rewrite !andb_false_r.
  - cbn [orb]. destruct (f x); [|exact IH].
    now rewrite includes_cons, E.
Qed.

Lemma includes_not (a b : list Player) (p : Player) :
  includes (TransferList.not a b) p = includes a p && negb (includes b p).
Proof.
  rewrite not_eq. apply includes_filter.
  intros x y H. now rewrite (includes_same_object b x y H).
Qed.

Lemma includes_intersection (a b : list Player) (p : Player) :
  includes (TransferList.intersection a b) p = includes a p && includes b p.
Proof.
  rewrite intersection_eq. apply includes_filter.
  intros x y H. apply (includes_same_object b x y H).
Qed.

Lemma includes_nil (p : Player) : includes [] p = false.
Proof. reflexivity. Qed.

Lemma splice1_indexOf (arr : list Player) (value : Player) :
  TransferList.indexOf arr value <> (-1)%Z ->
  TransferList.splice1 arr (TransferList.indexOf arr value)
  = withoutFirst value arr.
Proof.
  induction arr as [|x arr IH]; cbn [TransferList.indexOf withoutFirst];
    [congruence|].
  destruct (same_object x value); [reflexivity|].
  destruct (Z.eqb_spec (TransferList.indexOf arr value) (-1)) as [E|E];
    [congruence|].
  intros _. rewrite <- (IH E).
  pose proof (indexOf_range arr value) as R.
  unfold TransferList.splice1. cbn [length].
  replace (TransferList.indexOf arr value + 1 <? 0)%Z with false
    by (symmetry; apply Z.ltb_ge; lia).
  replace (TransferList.indexOf arr value <? 0)%Z with false
    by (symmetry; apply Z.ltb_ge; lia).
  rewrite !Z.min_l by lia.
  replace (Z.to_nat (TransferList.indexOf arr value + 1))
    with (S (Z.to_nat (TransferList.indexOf arr value))) by lia.
  reflexivity.
Qed.

Lemma withoutFirst_push_absent (arr : list Player) (value : Player) :
  includes arr value = false -> withoutFirst value (push arr value) = arr.
Proof.
  unfold push. induction arr as [|x arr IH]; intros H.
  - cbn. now rewrite same_object_refl.
  - rewrite includes_cons in H. apply orb_false_iff in H. destruct H as [H1 H2].
    cbn. rewrite same_object_sym, H1. now rewrite IH.
Qed.

Lemma includes_withoutFirst_other (arr : list Player) (value p : Player) :
  same_object p value = false ->
  includes (withoutFirst value arr) p = includes arr p.
Proof.
  intros H. induction arr as [|x arr IH]; [reflexivity|].
  cbn [withoutFirst]. destruct (same_object x value) eqn:E.
  - rewrite includes_cons.
    replace (same_object p x) with false; [reflexivity|].
    unfold same_object in *. apply Nat.eqb_eq in E.
    rewrite E. now symmetry.
  - now rewrite !includes_cons, IH.
Qed.

Lemma includes_withoutFirst_self (arr : list Player) (value : Player) :
  NoDup (map ref arr) -> includes (withoutFirst value arr) value = false.
Proof.
  induction arr as [|x arr IH]; intros H; [reflexivity|].
  cbn in H. inversion H as [|r l Hx Hl]; subst.
  cbn [withoutFirst]. destruct (same_object x value) eqn:E.
  - destruct (includes arr value) eqn:Hin; [|reflexivity].
    exfalso. apply Hx. apply includes_ref in Hin.
    unfold same_object in E. apply Nat.eqb_eq in E. now rewrite E.
  - rewrite includes_cons, same_object_sym, E. now apply IH.
Qed.

Lemma NoDup_refs_withoutFirst (arr : list Player) (value : Player) :
  NoDup (map ref arr) -> NoDup (map ref (withoutFirst value arr)).
Proof.
  induction arr as [|x arr IH]; intros H; [constructor|].
  cbn in H. inversion H as [|r l Hx Hl]; subst.
  cbn [withoutFirst]. destruct (same_object x value); [exact Hl|].
  cbn. constructor; [|now apply IH].
  intros Hin. apply Hx. clear -Hin.
  induction arr as [|y arr IH]; [contradiction|].
  cbn [withoutFirst] in Hin. destruct (same_object y value).
  - now right.
  - destruct Hin as [Hin|Hin]; [now left|right; now apply IH].
Qed.

Lemma handleToggle_checked (value : Player) (st : TransferList.State) :
  TransferList.checked (TransferList.handleToggle value st)
  = if includes (TransferList.checked st) value
    then withoutFirst value (TransferList.checked st)
    else push (TransferList.checked st) value.
Proof.
  unfold TransferList.handleToggle. cbn [TransferList.checked].
  rewrite indexOf_absent.
  destruct (includes (TransferList.checked st) value) eqn:E; cbn [negb];
    [|reflexivity].
  apply splice1_indexOf. intros H.
  apply Z.eqb_eq in H. rewrite indexOf_absent, E in H. discriminate.
Qed.

(** ** Checking and unchecking *)

(** X22.  Checking a player that was not checked and clicking it again
    gives back the state before. *)
Theorem handleToggle_twice :
  forall (value : Player) (st : TransferList.State),
    includes (TransferList.checked st) value = false ->
    TransferList.handleToggle value (TransferList.handleToggle value st) = st.
Proof.
  intros v st H.
  assert (E : TransferList.checked
                (TransferList.handleToggle v (TransferList.handleToggle v st))
              = TransferList.checked st).
  { rewrite handleToggle_checked, handleToggle_checked, H.
    rewrite includes_push. now apply withoutFirst_push_absent. }
  destruct st as [C N W]. unfold TransferList.handleToggle in *.
  cbn [TransferList.checked TransferList.notSelected TransferList.newWhitelist] in *.
  now rewrite E.
Qed.

Lemma handleToggle_twice_witness :
  includes (TransferList.checked TransferList.initialState) alice = false
  /\ TransferList.handleToggle alice
       (TransferList.handleToggle alice TransferList.initialState)
     = TransferList.initialState.
Proof.
  split; [reflexivity|].
  apply (handleToggle_twice alice TransferList.initialState). reflexivity.
Defined.

(** X23.  A click flips exactly the clicked player: when no object is
    checked twice, the clicked one is checked afterwards if and only if it
    was not before, every other object keeps its mark, and the two lists
    are not touched. *)
Theorem handleToggle_flips :
  forall (value : Player) (st : TransferList.State),
    NoDup (map ref (TransferList.checked st)) ->
    let st' := TransferList.handleToggle value st in
    includes (TransferList.checked st') value
    = negb (includes (TransferList.checked st) value)
    /\ (forall p, same_object p value = false ->
          includes (TransferList.checked st') p
          = includes (TransferList.checked st) p)
    /\ TransferList.notSelected st' = TransferList.notSelected st
    /\ TransferList.newWhitelist st' = TransferList.newWhitelist st.
Proof.
  intros v st Hnd. cbv zeta. rewrite handleToggle_checked.
  destruct (includes (TransferList.checked st) v) eqn:E; cbn [negb].
  - split; [now apply includes_withoutFirst_self|].
    split; [|now split].
    intros p Hp. now apply includes_withoutFirst_other.
  - split; [apply includes_push|]. split; [|now split].
    intros p Hp. unfold push. rewrite includes_app, includes_cons, Hp.
    now rewrite includes_nil, !orb_false_r.
Qed.

Lemma handleToggle_flips_witness :
  NoDup (map ref (TransferList.checked TransferList.initialState))
  /\ includes (TransferList.checked
                 (TransferList.handleToggle bob TransferList.initialState)) bob
     = true.
Proof.
  assert (H : NoDup (map ref (TransferList.checked TransferList.initialState)))
    by constructor.
  split; [exact H|].
  apply (handleToggle_flips bob TransferList.initialState H).
Defined.

Lemma step_checked_distinct (e : TransferList.Event) (st : TransferList.State) :
  NoDup (map ref (TransferList.checked st)) ->
  NoDup (map ref (TransferList.checked (TransferList.step e st))).
Proof.
  intros H. destruct e as [ps wl|v| | | | ]; cbn [TransferList.step]; try exact H.
  - rewrite handleToggle_checked.
    destruct (includes (TransferList.checked st) v) eqn:E.
    + now apply NoDup_refs_withoutFirst.
    + now apply NoDup_refs_push.
  - cbn. unfold TransferList.not. now apply NoDup_map_filter.
  - cbn. unfold TransferList.not. now apply NoDup_map_filter.
Qed.

(** X24.  No object is ever checked twice: from the initial state, after
    every sequence of initializations, clicks and transfers the checked
    players are pairwise different objects. *)
Theorem checked_distinct_after_every_trace :
  forall (events : list TransferList.Event),
    NoDup (map ref (TransferList.checked
                      (TransferList.run events TransferList.initialState))).
Proof.
  intros events.
  assert (G : forall st, NoDup (map ref (TransferList.checked st)) ->
                NoDup (map ref (TransferList.checked (TransferList.run events st)))).
  { induction events as [|e events IH]; intros st H; [exact H|].
    change (TransferList.run (e :: events) st)
      with (TransferList.run events (TransferList.step e st)).
    apply IH. now apply step_checked_distinct. }
  apply G. constructor.
Qed.

(** ** Moving players between the two lists *)

Lemma step_conserves (e : TransferList.Event) (st : TransferList.State) (p : Player) :
  (forall ps wl, e <> TransferList.Initialize ps wl) ->
  includes (TransferList.notSelected (TransferList.step e st)
            ++ TransferList.newWhitelist (TransferList.step e st)) p
  = includes (TransferList.notSelected st ++ TransferList.newWhitelist st) p.
Proof.
  intros Hne. destruct st as [C N W].
  destruct e as [ps wl|v| | | | ]; cbn [TransferList.step].
  - exfalso. now apply (Hne ps wl).
  - reflexivity.
  - cbn. rewrite ?includes_app, ?includes_nil.
    now destruct (includes N p), (includes W p).
  - unfold TransferList.handleCheckedRight, TransferList.leftChecked.
    cbn [TransferList.checked TransferList.notSelected TransferList.newWhitelist].
    rewrite !includes_app, includes_not, includes_intersection.
    now destruct (includes N p), (includes W p), (includes C p).
  - unfold TransferList.handleCheckedLeft, TransferList.rightChecked.
    cbn [TransferList.checked TransferList.notSelected TransferList.newWhitelist].
    rewrite !includes_app, includes_not, includes_intersection.
    now destruct (includes N p), (includes W p), (includes C p).
  - cbn. rewrite ?app_nil_r, ?includes_app, ?includes_nil.
    now destruct (includes N p), (includes W p).
Qed.

(** X25.  The transfer buttons neither lose nor invent a player: after an
    initialization from the application's players and the current
    whitelist, and any sequence of clicks and transfers, an object is in
    one of the two lists exactly when it was among those players or on
    that whitelist. *)
Theorem transfers_conserve_players :
  forall (players whitelistOfPlayers : list Player) (st : TransferList.State)
         (events : list TransferList.Event) (p : Player),
    no_initialize events ->
    let st' := TransferList.run events
                 (TransferList.initializeWhitelist players whitelistOfPlayers st) in
    includes (TransferList.notSelected st' ++ TransferList.newWhitelist st') p
    = includes players p || includes whitelistOfPlayers p.
Proof.
  intros ps wl st events p Hni. cbv zeta.
  assert (G : forall st0,
             includes (TransferList.notSelected (TransferList.run events st0)
                       ++ TransferList.newWhitelist (TransferList.run events st0)) p
             = includes (TransferList.notSelected st0
                         ++ TransferList.newWhitelist st0) p).
  { induction events as [|e events IH]; intros st0; [reflexivity|].
    change (TransferList.run (e :: events) st0)
      with (TransferList.run events (TransferList.step e st0)).
    rewrite IH.
    - apply step_conserves. intros ps0 wl0 E. apply (Hni ps0 wl0). now left.
    - intros ps0 wl0 Hin. apply (Hni ps0 wl0). now right. }
  rewrite G. cbn. rewrite includes_app, includes_filter.
  - now destruct (includes ps p), (includes wl p).
  - intros a b H. now rewrite (includes_same_object wl a b H).
Qed.

Lemma transfers_conserve_players_witness :
  no_initialize [TransferList.Toggle bob; TransferList.CheckedRight]
  /\ includes
       (TransferList.notSelected
          (TransferList.run [TransferList.Toggle bob; TransferList.CheckedRight]
             (TransferList.initializeWhitelist [alice; bob; carol] [alice]
                TransferList.initialState))
        ++ TransferList.newWhitelist
             (TransferList.run [TransferList.Toggle bob; TransferList.CheckedRight]
                (TransferList.initializeWhitelist [alice; bob; carol] [alice]
                   TransferList.initialState))) bob
     = includes [alice; bob; carol] bob || includes [alice] bob.
Proof.
  assert (H : no_initialize [TransferList.Toggle bob; TransferList.CheckedRight]).
  { intros ps wl [E|[E|[]]]; discriminate E. }
  split; [exact H|].
  apply (transfers_conserve_players [alice; bob; carol] [alice]
           TransferList.initialState
           [TransferList.Toggle bob; TransferList.CheckedRight] bob H).
Defined.

Lemma step_disjoint (e : TransferList.Event) (st : TransferList.State) :
  (forall p, includes (TransferList.notSelected st) p
             && includes (TransferList.newWhitelist st) p = false) ->
  forall p, includes (TransferList.notSelected (TransferList.step e st)) p
            && includes (TransferList.newWhitelist (TransferList.step e st)) p
            = false.
Proof.
  intros H p. specialize (H p). destruct st as [C N W].
  cbn [TransferList.notSelected TransferList.newWhitelist] in H.
  destruct e as [ps wl|v| | | | ]; cbn [TransferList.step].
  - cbn. rewrite includes_filter.
    + now destruct (includes ps p), (includes wl p).
    + intros a b E. now rewrite (includes_same_object wl a b E).
  - exact H.
  - reflexivity.
  - unfold TransferList.handleCheckedRight, TransferList.leftChecked.
    cbn [TransferList.checked TransferList.notSelected TransferList.newWhitelist].
    rewrite includes_app, includes_not, includes_intersection.
    now destruct (includes N p), (includes W p), (includes C p).
  - unfold TransferList.handleCheckedLeft, TransferList.rightChecked.
    cbn [TransferList.checked TransferList.notSelected TransferList.newWhitelist].
    rewrite includes_app, includes_not, includes_intersection.
    now destruct (includes N p), (includes W p), (includes C p).
  - cbn. now rewrite andb_false_r.
Qed.

(** X26.  No player is on both sides: from the initial state, after every
    sequence of initializations, clicks and transfers, no object is at the
    same time among the players not selected and on the new whitelist. *)
Theorem lists_disjoint_after_every_trace :
  forall (events : list TransferList.Event) (p : Player),
    let st := TransferList.run events TransferList.initialState in
    includes (TransferList.notSelected st) p
    && includes (TransferList.newWhitelist st) p = false.
Proof.
  intros events.
  assert (G : forall st,
             (forall p, includes (TransferList.notSelected st) p
                        && includes (TransferList.newWhitelist st) p = false) ->
             forall p,
               includes (TransferList.notSelected (TransferList.run events st)) p
               && includes (TransferList.newWhitelist (TransferList.run events st)) p
               = false).
  { induction events as [|e events IH]; intros st H; [exact H|].
    change (TransferList.run (e :: events) st)
      with (TransferList.run events (TransferList.step e st)).
    apply IH. now apply step_disjoint. }
  apply G. reflexivity.
Qed.

Lemma filter_none {A : Type} (f : A -> bool) (l : list A) :
  (forall x, In x l -> f x = false) -> filter f l = [].
Proof.
  induction l as [|x l IH]; intros H; [reflexivity|].
  cbn. rewrite (H x) by now left. apply IH. intros y Hy. apply H. now right.
Qed.

Lemma In_not (a b : list Player) (p : Player) :
  In p (TransferList.not a b) -> In p a /\ includes b p = false.
Proof.
  rewrite not_eq, filter_In. intros [H1 H2]. split; [exact H1|].
  now apply negb_true_iff.
Qed.

(** X27.  What has been moved is no longer checked: after "move selected
    right" no checked player is left among the not selected ones, after
    "move selected left" none is left on the new whitelist, and every
    player that was checked on one side is now on the other side and
    not on the first. *)
Theorem moved_players_are_unchecked :
  forall (st : TransferList.State),
    TransferList.leftChecked (TransferList.handleCheckedRight st) = []
    /\ TransferList.rightChecked (TransferList.handleCheckedLeft st) = []
    /\ (forall p, includes (TransferList.leftChecked st) p = true ->
          includes (TransferList.newWhitelist (TransferList.handleCheckedRight st)) p
          = true
          /\ includes (TransferList.notSelected (TransferList.handleCheckedRight st)) p
             = false)
    /\ (forall p, includes (TransferList.rightChecked st) p = true ->
          includes (TransferList.notSelected (TransferList.handleCheckedLeft st)) p
          = true
          /\ includes (TransferList.newWhitelist (TransferList.handleCheckedLeft st)) p
             = false).
Proof.
  intros [C N W].
  unfold TransferList.leftChecked, TransferList.rightChecked,
    TransferList.handleCheckedRight, TransferList.handleCheckedLeft.
  cbn [TransferList.checked TransferList.notSelected TransferList.newWhitelist].
  unfold TransferList.leftChecked, TransferList.rightChecked.
  cbn [TransferList.checked TransferList.notSelected TransferList.newWhitelist].
  split; [|split; [|split]].
  - rewrite intersection_eq. apply filter_none. intros y Hy.
    apply In_not in Hy. destruct Hy as [Hc Hl].
    rewrite includes_not, Hl. rewrite includes_intersection in Hl.
    rewrite (In_includes _ _ Hc) in Hl. cbn in Hl. now rewrite Hl.
  - rewrite intersection_eq. apply filter_none. intros y Hy.
    apply In_not in Hy. destruct Hy as [Hc Hl].
    rewrite includes_not, Hl. rewrite includes_intersection in Hl.
    rewrite (In_includes _ _ Hc) in Hl. cbn in Hl. now rewrite Hl.
  - intros p Hp. rewrite includes_app, includes_not, Hp.
    now rewrite orb_true_r, andb_false_r.
  - intros p Hp. rewrite includes_app, includes_not, Hp.
    now rewrite orb_true_r, andb_false_r.
Qed.

Lemma moved_players_are_unchecked_witness :
  includes (TransferList.leftChecked
              (TransferList.run [TransferList.Toggle bob]
                 (TransferList.initializeWhitelist [alice; bob; carol] [alice]
                    TransferList.initialState))) bob = true
  /\ includes (TransferList.newWhitelist
                 (TransferList.handleCheckedRight
                    (TransferList.run [TransferList.Toggle bob]
                       (TransferList.initializeWhitelist [alice; bob; carol] [alice]
                          TransferList.initialState)))) bob = true.
Proof.
  split; [reflexivity|].
  destruct (moved_players_are_unchecked
              (TransferList.run [TransferList.Toggle bob]
                 (TransferList.initializeWhitelist [alice; bob; carol] [alice]
                    TransferList.initialState))) as (_ & _ & H & _).
  apply H. reflexivity.
Defined.
